(** * Blob cropping and crop serialisation of [datasets/preprocess_data.py]

    A shallow embedding of [crop_to_boxes_of_interset_cc], of the per-file
    body of [create_dataset] and of [create_normal_dataset], with the
    properties of the volume cropping pipeline stated over it.

    Conventions of the embedding:
    - a numpy array of rank 3 is a shape together with an indexing function;
      only the voxels inside the shape are ever observed;
    - basic slicing yields a [view] (offset and extent into the base buffer),
      so that in-place writes through a crop reach the shared label volume;
    - Python exceptions are the [Raise] case of [result];
    - Python floats (tolerance, spacing, scale factors) are rationals. *)

From Stdlib Require Import ZArith QArith Qround Lia Ascii String Sorted.
From stdpp Require Import gmap strings pretty list_numbers.

Local Open Scope Z_scope.

(** ** Exceptions *)

Inductive exn :=
  AssertionError | IndexError | ValueError | ZeroDivisionError | RuntimeError.

Inductive result (A : Type) :=
  | Ok (a : A)
  | Raise (e : exn).
Arguments Ok {A} a.
Arguments Raise {A} e.

Global Instance result_ret : MRet result := fun A a => Ok a.
Global Instance result_bind : MBind result := fun A B f m =>
  match m with Ok a => f a | Raise e => Raise e end.

(** ** Arrays of rank 3 *)

Definition idx : Type := Z * Z * Z.

Record ndarray (A : Type) := NdArray { shape : idx; item : idx -> A }.
Arguments NdArray {A} shape item.
Arguments shape {A} n.
Arguments item {A} n p.

Definition in_bounds (s p : idx) : Prop :=
  let '(d, h, w) := s in let '(i, j, k) := p in
  0 <= i < d /\ 0 <= j < h /\ 0 <= k < w.

Definition in_boundsb (s p : idx) : bool :=
  let '(d, h, w) := s in let '(i, j, k) := p in
  (0 <=? i) && (i <? d) && (0 <=? j) && (j <? h) && (0 <=? k) && (k <? w).

(** All indices of a shape, in C (row-major) order. *)
Definition indices (s : idx) : list idx :=
  let '(d, h, w) := s in
  let js := seqZ 0 h in
  let ks := seqZ 0 w in
  i ← seqZ 0 d; j ← js; k ← ks; [(i, j, k)].

(** [a.size] and [a.flatten()]. *)
Definition size {A} (a : ndarray A) : Z :=
  let '(d, h, w) := shape a in d * h * w.
Definition flatten {A} (a : ndarray A) : list A := item a <$> indices (shape a).

(** [a == v], elementwise. *)
Definition eq_scalar (a : ndarray Z) (v : Z) : ndarray bool :=
  NdArray (shape a) (fun p => item a p =? v).

(** [np.clip(a, lo, hi)]. *)
Definition np_clip (a : ndarray Z) (lo hi : Z) : ndarray Z :=
  NdArray (shape a) (fun p => Z.min (Z.max (item a p) lo) hi).

(** ** Slices and views *)

Record slice := Slice { start : Z; stop : Z }.

(** [slice.indices(n)] for a unit step: negative bounds count from the end,
    everything is clamped to [0, n]. *)
Definition adjust (n i : Z) : Z :=
  if i <? 0 then Z.max 0 (i + n) else Z.min i n.

Definition slice_start (s : slice) (n : Z) : Z := adjust n (start s).
Definition slice_len (s : slice) (n : Z) : Z :=
  Z.max 0 (adjust n (stop s) - adjust n (start s)).

Record view := View { offset : idx; extent : idx }.

Definition ranges : Type := slice * slice * slice.

(** [a[r0, r1, r2]] on a buffer of shape [s]: where the view starts and how
    far it reaches. *)
Definition basic_index (s : idx) (r : ranges) : view :=
  let '(d, h, w) := s in let '(r0, r1, r2) := r in
  View (slice_start r0 d, slice_start r1 h, slice_start r2 w)
       (slice_len r0 d, slice_len r1 h, slice_len r2 w).

Definition whole (s : idx) : view := View (0, 0, 0) s.

Definition shift (o p : idx) : idx :=
  let '(o0, o1, o2) := o in let '(i, j, k) := p in (o0 + i, o1 + j, o2 + k).

(** Reading a view: the array seen through it at this moment. *)
Definition deref {A} (a : ndarray A) (v : view) : ndarray A :=
  NdArray (extent v) (fun p => item a (shift (offset v) p)).

Definition getitem {A} (a : ndarray A) (r : ranges) : ndarray A :=
  deref a (basic_index (shape a) r).

(** Voxel [q] of the base buffer lies in the view. *)
Definition in_viewb (v : view) (q : idx) : bool :=
  let '(o0, o1, o2) := offset v in let '(i, j, k) := q in
  in_boundsb (extent v) (i - o0, j - o1, k - o2).

(** ** numpy helpers used by the cropper *)

(** [np.where(image)]: the coordinates of the true voxels, one array per axis. *)
Definition np_where_idx (image : ndarray bool) : list idx :=
  List.filter (item image) (indices (shape image)).

Definition np_where (image : ndarray bool) : list Z * list Z * list Z :=
  let l := np_where_idx image in
  (l.*1.*1, l.*1.*2, l.*2).

(** [x.min()] and [x.max()]; both raise on an empty array. *)
Definition amin (x : list Z) : result Z :=
  match x with [] => Raise ValueError | a :: l => Ok (foldr Z.min a l) end.
Definition amax (x : list Z) : result Z :=
  match x with [] => Raise ValueError | a :: l => Ok (foldr Z.max a l) end.

(** [np.unique]: the sorted distinct values. *)
Fixpoint insert_uniq (x : Z) (l : list Z) : list Z :=
  match l with
  | [] => [x]
  | y :: l' => if x <? y then x :: l else if x =? y then l else y :: insert_uniq x l'
  end.
Definition np_unique (l : list Z) : list Z := foldr insert_uniq [] l.

Definition count (l : list Z) (v : Z) : Z :=
  Z.of_nat (length (List.filter (Z.eqb v) l)).

(** [np.unique(l, return_counts=True)]. *)
Definition np_unique_counts (l : list Z) : list Z * list Z :=
  let values := np_unique l in (values, count l <$> values).

(** [np.where(values == v)[0][0]]: the first index holding [v]. *)
Fixpoint first_index (values : list Z) (v : Z) : result Z :=
  match values with
  | [] => Raise IndexError
  | y :: l => if y =? v then Ok 0 else i ← first_index l v; Ok (i + 1)
  end.

(** [np.delete(arr, obj)] for a list of non-negative indices: an index out of
    range raises, the listed positions are dropped. *)
Fixpoint drop_at (pos : Z) (obj : list Z) (arr : list Z) : list Z :=
  match arr with
  | [] => []
  | c :: l => if bool_decide (pos ∈ obj) then drop_at (pos + 1) obj l
              else c :: drop_at (pos + 1) obj l
  end.
Definition np_delete (arr : list Z) (obj : list Z) : result (list Z) :=
  if forallb (fun i => (0 <=? i) && (i <? Z.of_nat (length arr))) obj
  then Ok (drop_at 0 obj arr) else Raise IndexError.

Definition np_sum (l : list Z) : Z := foldr Z.add 0 l.

(** [sep.join(l)]. *)
Fixpoint str_join (sep : string) (l : list string) : string :=
  match l with
  | [] => EmptyString
  | [s] => s
  | s :: l' => s +:+ sep +:+ str_join sep l'
  end.

(** ** Cropping parameters *)

Record cropping_params := CroppingParams {
  cropping_lable : Z;
  slice_margins : Z * Z * Z;
  allowed_perc_other_blobs : Q;
  mask_dilation : Z
}.

(** A crop as appended to [crops]: the CT view, the label view and the
    location string. *)
Definition crop : Type := view * view * string.

(** ** scipy's [binary_dilation] *)

(** Modelled from the spec: [scipy.ndimage.binary_dilation] is an external
    library routine; section 4.2 step 2 and the glossary describe it as
    growing the region by absorbing adjacent background voxels, once per
    iteration.  The default structuring element is the face-connected cross
    and an iteration count below one repeats until nothing changes, which is
    reached after as many rounds as the three extents add up to. *)
Definition dilate_once (m : ndarray bool) : ndarray bool :=
  NdArray (shape m) (fun p =>
    let '(i, j, k) := p in
    let at_ q := in_boundsb (shape m) q && item m q in
    at_ p || at_ (i - 1, j, k) || at_ (i + 1, j, k)
          || at_ (i, j - 1, k) || at_ (i, j + 1, k)
          || at_ (i, j, k - 1) || at_ (i, j, k + 1)).

Definition binary_dilation (m : ndarray bool) (iterations : Z) : ndarray bool :=
  let '(d, h, w) := shape m in
  let rounds := if iterations <? 1 then d + h + w else iterations in
  Nat.iter (Z.to_nat rounds) dilate_once m.

(** ** cc3d *)

(** Modelled from the spec: [cc3d.connected_components] is an external
    library routine; section 4.2 step 3 describes it as 3D connected-component
    labeling with full 26-connectivity that gives a distinct positive integer
    to each connected foreground component and 0 to background.  This
    reference labeling visits the foreground voxels in C order, merges the
    components a voxel touches, and numbers the components from 1 in the
    order of their first voxel. *)
Definition near (p q : idx) : bool :=
  let '(i, j, k) := p in let '(a, b, c) := q in
  (Z.abs (i - a) <=? 1) && (Z.abs (j - b) <=? 1) && (Z.abs (k - c) <=? 1).

Definition idx_eqb (p q : idx) : bool :=
  let '(i, j, k) := p in let '(a, b, c) := q in
  (i =? a) && (j =? b) && (k =? c).

Definition touches (v : idx) (C : list idx) : bool := existsb (near v) C.

Fixpoint absorb (v : idx) (comps : list (list idx)) : list (list idx) :=
  match comps with
  | [] => [[v]]
  | C :: rest =>
      if touches v C
      then (v :: C ++ concat (List.filter (touches v) rest))
             :: List.filter (fun D => negb (touches v D)) rest
      else C :: absorb v rest
  end.

Definition components (m : ndarray bool) : list (list idx) :=
  foldl (fun comps v => absorb v comps) [] (np_where_idx m).

Fixpoint component_of (p : idx) (n : Z) (comps : list (list idx)) : Z :=
  match comps with
  | [] => 0
  | C :: rest =>
      if existsb (idx_eqb p) C then n
      else component_of p (n + 1) rest
  end.

Definition cc3d_connected_components (m : ndarray bool) : ndarray Z :=
  let comps := components m in
  NdArray (shape m) (fun p =>
    if in_boundsb (shape m) p && item m p then component_of p 1 comps else 0).

(** Modelled from the spec: [cc3d.each(cc, binary=True)] is an external
    library routine; section 4.2 has it yield one candidate per connected
    component, in component label order: the label and the mask of its
    voxels. *)
Definition cc3d_each (cc : ndarray Z) : list (Z * ndarray bool) :=
  (fun label => (label, eq_scalar cc label))
    <$> List.filter (fun l => negb (l =? 0)) (np_unique (flatten cc)).

(** ** The cropper *)

Definition tight_range (x : list Z) : result slice :=
  lo ← amin x; hi ← amax x; mret (Slice lo (hi + 1)).

Definition margin_range (margin : Z) (x : list Z) : result slice :=
  lo ← amin x; hi ← amax x; mret (Slice (Z.max 0 (lo - margin)) (hi + margin)).

(** [relevant_ranges] and [ranges_with_margins]: one slice per axis of
    [nwhere]. *)
Definition tight_ranges (nwhere : list Z * list Z * list Z) : result ranges :=
  let '(x0, x1, x2) := nwhere in
  t0 ← tight_range x0; t1 ← tight_range x1; t2 ← tight_range x2;
  mret (t0, t1, t2).

Definition margin_ranges (margins : Z * Z * Z) (nwhere : list Z * list Z * list Z)
    : result ranges :=
  let '(x0, x1, x2) := nwhere in let '(m0, m1, m2) := margins in
  r0 ← margin_range m0 x0; r1 ← margin_range m1 x1; r2 ← margin_range m2 x2;
  mret (r0, r1, r2).

Definition half_extent (x : slice) : Z := (stop x - start x) `div` 2.

Definition location_string_of (r : ranges) : string :=
  let '(r0, r1, r2) := r in
  str_join "-" [pretty (half_extent r0); pretty (half_extent r1);
                pretty (half_extent r2)].

Definition ratio (n total : Z) : Q := (inject_Z n / inject_Z total)%Q.

Section Cropper.

(** [cc3d.connected_components], as called with its default connectivity. *)
Variable connected_components : ndarray bool -> ndarray Z.

(** [other_non_bg_occurances] of lines 103 to 105. *)
Definition other_non_bg_occurances (cc : ndarray Z) (relevant_ranges : ranges)
    (label : Z) : result Z :=
  let '(values, counts) := np_unique_counts (flatten (getitem cc relevant_ranges)) in
  label_idx ← first_index values label;
  rest ← np_delete counts [0; label_idx];
  mret (np_sum rest).

(** One iteration of the loop of [crop_to_boxes_of_interset_cc]: [None] is
    the [continue] of the overlap check, [Some] the appended crop. *)
Definition blob_crop (image_volume labels_volume cc : ndarray Z)
    (params : cropping_params) (label : Z) (image : ndarray bool)
    : result (option crop) :=
  let nwhere := np_where image in
  relevant_ranges ← tight_ranges nwhere;
  other ← other_non_bg_occurances cc relevant_ranges label;
  if negb (Qle_bool (ratio other (size (getitem cc relevant_ranges)))
                    (allowed_perc_other_blobs params))
  then mret None
  else
    ranges_with_margins ← margin_ranges (slice_margins params) nwhere;
    let location_string := location_string_of ranges_with_margins in
    mret (Some (basic_index (shape image_volume) ranges_with_margins,
                basic_index (shape labels_volume) ranges_with_margins,
                location_string)).

Fixpoint crops_loop (image_volume labels_volume cc : ndarray Z)
    (params : cropping_params) (blobs : list (Z * ndarray bool))
    : result (list crop) :=
  match blobs with
  | [] => mret []
  | (label, image) :: blobs' =>
      c ← blob_crop image_volume labels_volume cc params label image;
      crops ← crops_loop image_volume labels_volume cc params blobs';
      mret (match c with Some c => c :: crops | None => crops end)
  end.

Definition crop_to_boxes_of_interset_cc (image_volume labels_volume : ndarray Z)
    (params : cropping_params) : result (list crop) :=
  let binary_volume := eq_scalar labels_volume (cropping_lable params) in
  let _ := binary_dilation binary_volume (mask_dilation params) in
  let cc := connected_components binary_volume in
  crops_loop image_volume labels_volume cc params (cc3d_each cc).

End Cropper.

(** ** Strings and paths *)

(** [s.rfind(c)] for a single character: the last position, or -1. *)
Fixpoint rfind_go (c : ascii) (s : string) (pos last : Z) : Z :=
  match s with
  | EmptyString => last
  | String a s' => rfind_go c s' (pos + 1) (if Ascii.eqb a c then pos else last)
  end.
Definition rfind (c : ascii) (s : string) : Z := rfind_go c s 0 (-1).

Definition char_is (s : string) (i : Z) (c : ascii) : bool :=
  match String.get (Z.to_nat i) s with Some a => Ascii.eqb a c | None => false end.

(** [os.path.splitext(p)[0]] (posixpath): the extension starts at the last
    dot of the last path component, leading dots of that component apart. *)
Definition splitext_root (p : string) : string :=
  let sepIndex := rfind "/" p in
  let dotIndex := rfind "." p in
  if (sepIndex <? dotIndex)
     && existsb (fun i => negb (char_is p i "."))
                (seqZ (sepIndex + 1) (dotIndex - (sepIndex + 1)))
  then String.substring 0 (Z.to_nat dotIndex) p
  else p.

Definition starts_with (c : ascii) (s : string) : bool :=
  match s with String a _ => Ascii.eqb a c | EmptyString => false end.
Definition ends_with (c : ascii) (s : string) : bool :=
  char_is s (Z.of_nat (String.length s) - 1) c.

(** [os.path.join(a, b)] (posixpath). *)
Definition path_join (a b : string) : string :=
  if starts_with "/" b then b
  else if (String.length a =? 0)%nat || ends_with "/" a then a +:+ b
  else a +:+ "/" +:+ b.

(** [s.replace(old, new)] for a non-empty [old]: the occurrences are taken
    from left to right and do not overlap; [skip] counts the characters of a
    replaced occurrence that are still to be passed over. *)
Fixpoint replace_go (old new : string) (skip : nat) (s : string) : string :=
  match s with
  | EmptyString => EmptyString
  | String c s' =>
      match skip with
      | S n => replace_go old new n s'
      | O => if String.prefix old s
             then new +:+ replace_go old new (String.length old - 1) s'
             else String c (replace_go old new 0 s')
      end
  end.
Definition str_replace (old new s : string) : string := replace_go old new 0 s.

(** [str(b)] for a bool and [str(t)] for a tuple of three ints. *)
Definition str_bool (b : bool) : string := if b then "True" else "False".
Definition str_tuple (t : Z * Z * Z) : string :=
  let '(a, b, c) := t in
  "(" +:+ pretty a +:+ ", " +:+ pretty b +:+ ", " +:+ pretty c +:+ ")".

(** ** The dataset builder *)

Definition IMG_MIN_VAL : Z := -512.
Definition IMG_MAX_VAL : Z := 512.

(** What [create_dataset] is called with, [root_dir] apart. *)
Record dataset_config := DatasetConfig {
  slice_size_mm : Q;
  spatial_scale : Q;
  min_sizes : Z * Z * Z;
  crop_params : option cropping_params;
  remove_liver_label : option bool
}.

(** One entry of [os.listdir(root_dir/ct)] with what the two [ReadImage]
    calls return for it: the CT array, the spacing along the slice axis and
    the array of the paired segmentation. *)
Record source_pair := SourcePair {
  ct_filename : string;
  ct_image : ndarray Z;
  ct_spacing : Q;
  seg_image : ndarray Z
}.

(** The two [np.save] calls of one persisted crop. *)
Record saved := Saved {
  ct_path : string;
  ct_npy : ndarray Z;
  seg_path : string;
  seg_npy : ndarray Z
}.

(** The output directory as a map from path to array content; a save to an
    existing path replaces what was there. *)
Definition np_save (path : string) (arr : ndarray Z)
    (fs : gmap string (ndarray Z)) : gmap string (ndarray Z) :=
  <[path := arr]> fs.
Definition persist (fs : gmap string (ndarray Z)) (s : saved)
    : gmap string (ndarray Z) :=
  np_save (seg_path s) (seg_npy s) (np_save (ct_path s) (ct_npy s) fs).
Definition replay (log : list saved) (fs : gmap string (ndarray Z))
    : gmap string (ndarray Z) :=
  foldl persist fs log.

(** [buf[buf == v] = w] through a view of the buffer: the write lands in the
    shared buffer, at the voxels of the view that hold [v]. *)
Definition setitem_where (buf : ndarray Z) (vw : view) (v w : Z) : ndarray Z :=
  NdArray (shape buf) (fun q =>
    if in_viewb vw q && (item buf q =? v) then w else item buf q).

Definition truthy (b : option bool) : bool :=
  match b with Some true => true | _ => false end.

(** [np.any(shape < np.array(min_sizes))]. *)
Definition too_small (s m : idx) : bool :=
  let '(d, h, w) := s in let '(m0, m1, m2) := m in
  (d <? m0) || (h <? m1) || (w <? m2).

Definition str_crop_params (num_str : Q -> string) (p : cropping_params) : string :=
  "[CL-" +:+ pretty (cropping_lable p) +:+ "_margins-" +:+ str_tuple (slice_margins p)
  +:+ "_OB-" +:+ num_str (allowed_perc_other_blobs p)
  +:+ "_MD-" +:+ pretty (mask_dilation p) +:+ "]".

Section Dataset.

Variable connected_components : ndarray bool -> ndarray Z.

(** [ndimage.zoom(input, zoom, order=order)]. *)
Variable zoom : ndarray Z -> Q * Q * Q -> Z -> ndarray Z.

(** [str] of a float or int argument inside an f-string. *)
Variable num_str : Q -> string.

Variable cfg : dataset_config.

Definition processed_dir : string :=
  "LiverData_(S-" +:+ num_str (spatial_scale cfg)
  +:+ "_MS-" +:+ str_tuple (min_sizes cfg)
  +:+ "_MM-" +:+ num_str (slice_size_mm cfg)
  +:+ match remove_liver_label cfg with
      | Some b => "RL-" +:+ str_bool b
      | None => EmptyString
      end
  +:+ match crop_params cfg with
      | Some p => "_CP-" +:+ str_crop_params num_str p
      | None => EmptyString
      end
  +:+ ")".
Definition new_ct_dir : string := path_join processed_dir "ct".
Definition new_seg_dir : string := path_join processed_dir "seg".

(** Lines 168 to 171: the resampling of one crop. *)
Definition resample (spacing : Q) (ct_array seg_array : ndarray Z)
    : result (ndarray Z * ndarray Z) :=
  if negb (Qeq_bool (slice_size_mm cfg) 1) || negb (Qeq_bool (spatial_scale cfg) 1)
  then
    if Qeq_bool (slice_size_mm cfg) 0 then Raise ZeroDivisionError
    else
      let new_dims := ((spacing / slice_size_mm cfg)%Q, spatial_scale cfg,
                       spatial_scale cfg) in
      mret (zoom ct_array new_dims 3, zoom seg_array new_dims 0)
  else mret (ct_array, seg_array).

Definition crop_fname (filename location_string : string) (blob_idx : Z) : string :=
  let fname := splitext_root filename in
  if (0 <? String.length location_string)%nat
  then fname +:+ "-(" +:+ location_string +:+ ").npy"
  else fname +:+ "-" +:+ pretty blob_idx +:+ ".npy".

(** Lines 163 to 165: the in-place remap, written through the label view
    of the crop into the label buffer of the file. *)
Definition remove_liver (seg : ndarray Z) (seg_view : view) : ndarray Z :=
  if truthy (remove_liver_label cfg)
  then setitem_where (setitem_where seg seg_view 1 0) seg_view 2 1
  else seg.

Definition crop_path (filename location_string : string) (blob_idx : Z) : string :=
  path_join new_ct_dir (crop_fname filename location_string blob_idx).

(** The body of the loop over [all_blobs] for the pair [f]: [ct] is the
    clipped CT buffer and [seg] the label buffer, both shared by all the
    crops of the file.  The result is the label buffer after the in-place
    remap and what was saved, if anything. *)
Definition process_blob (f : source_pair) (ct seg : ndarray Z) (blob_idx : Z)
    (c : crop) : result (ndarray Z * option saved) :=
  let '(ct_view, seg_view, location_string) := c in
  let seg := remove_liver seg seg_view in
  '(ct_array, seg_array) ← resample (ct_spacing f) (deref ct ct_view) (deref seg seg_view);
  if too_small (shape ct_array) (min_sizes cfg) then mret (seg, None)
  else
    let path := crop_path (ct_filename f) location_string blob_idx in
    mret (seg, Some (Saved path ct_array
                           (str_replace "volume" "segmentation" path) seg_array)).

(** The loop over [enumerate(all_blobs)]: the saves made, in order, and how
    the loop ended. *)
Fixpoint save_blobs (f : source_pair) (ct seg : ndarray Z) (blob_idx : Z)
    (all_blobs : list crop) : list saved * result unit :=
  match all_blobs with
  | [] => ([], Ok ())
  | c :: rest =>
      match process_blob f ct seg blob_idx c with
      | Raise e => ([], Raise e)
      | Ok (seg', o) =>
          let '(log, r) := save_blobs f ct seg' (blob_idx + 1) rest in
          (match o with Some s => s :: log | None => log end, r)
      end
  end.

Definition all_blobs_of (ct_array seg_array : ndarray Z) : result (list crop) :=
  match crop_params cfg with
  | Some p => crop_to_boxes_of_interset_cc connected_components ct_array seg_array p
  | None => mret [(whole (shape ct_array), whole (shape seg_array), EmptyString)]
  end.

(** The body of the loop over the directory listing, lines 142 to 186. *)
Definition process_pair (f : source_pair) : list saved * result unit :=
  let ct_array := ct_image f in
  let seg_array := seg_image f in
  if bool_decide (shape seg_array = shape ct_array) then
    let ct_array := np_clip ct_array IMG_MIN_VAL IMG_MAX_VAL in
    match all_blobs_of ct_array seg_array with
    | Raise e => ([], Raise e)
    | Ok all_blobs => save_blobs f ct_array seg_array 0 all_blobs
    end
  else ([], Raise AssertionError).

(** [create_dataset] over the directory listing: every save made before an
    exception stays on disk, nothing is done after it.  The list of
    spacings, which only feeds the closing printout, is left out. *)
Fixpoint create_dataset (listing : list source_pair) : list saved * result unit :=
  match listing with
  | [] => ([], Ok ())
  | f :: rest =>
      match process_pair f with
      | (log, Raise e) => (log, Raise e)
      | (log, Ok _) =>
          let '(log', r) := create_dataset rest in (log ++ log', r)
      end
  end.

End Dataset.

(** ** The full-torso dataset builder *)

(** A [sitk] image: the voxel array and the spacing (x, y, z), direction
    and origin it carries. *)
Record sitk_image := SitkImage {
  GetArrayFromImage : ndarray Z;
  GetSpacing : Q * Q * Q;
  GetDirection : list Q;
  GetOrigin : Q * Q * Q
}.

(** One entry of the listing with what the two [ReadImage] calls return. *)
Record torso_pair := TorsoPair {
  torso_filename : string;
  torso_ct : sitk_image;
  torso_seg : sitk_image
}.

(** Arrays of rank 1. *)
Record ndarray1 (A : Type) := NdArray1 { len1 : Z; item1 : Z -> A }.
Arguments NdArray1 {A} len1 item1.
Arguments len1 {A} n.
Arguments item1 {A} n i.

(** [np.any(a, axis=(1, 2))]. *)
Definition np_any_12 (a : ndarray Z) : ndarray1 bool :=
  let '(d, h, w) := shape a in
  NdArray1 d (fun i =>
    existsb (fun j => existsb (fun k => negb (item a (i, j, k) =? 0)) (seqZ 0 w))
            (seqZ 0 h)).

(** [np.where(z)[0]] for a vector. *)
Definition np_where_1d (z : ndarray1 bool) : list Z :=
  List.filter (item1 z) (seqZ 0 (len1 z)).

(** [x[[0, -1]]]: the first and the last entry, an [IndexError] on an empty
    array. *)
Definition first_and_last (x : list Z) : result (Z * Z) :=
  match x with
  | [] => Raise IndexError
  | a :: _ => mret (a, List.last x a)
  end.

(** [int(q)]: rounding towards zero. *)
Definition py_int (q : Q) : Z := if Qle_bool 0 q then Qfloor q else Qceiling q.

(** The slice [:] on an axis of length [n]. *)
Definition full_slice (n : Z) : slice := Slice 0 n.

(** [image.SetSpacing(spacing)]: ITK refuses a spacing that is zero on some
    axis, which SimpleITK hands on as a [RuntimeError]. *)
Definition SetSpacing (image : sitk_image) (spacing : Q * Q * Q) : result sitk_image :=
  let '(sx, sy, sz) := spacing in
  if Qeq_bool sx 0 || Qeq_bool sy 0 || Qeq_bool sz 0 then Raise RuntimeError
  else mret (SitkImage (GetArrayFromImage image) spacing
                       (GetDirection image) (GetOrigin image)).

(** [sitk.GetImageFromArray(a)] followed by [SetDirection] and [SetOrigin]:
    a fresh image has unit spacing. *)
Definition GetImageFromArray (a : ndarray Z) (direction : list Q) (origin : Q * Q * Q)
    : sitk_image :=
  SitkImage a (1, 1, 1)%Q direction origin.

Module Normal.
Section NormalDataset.

(** [ndimage.zoom] and the rendering of a number inside an f-string, as for
    [create_dataset], and the arguments of [create_normal_dataset]. *)
Variable zoom : ndarray Z -> Q * Q * Q -> Z -> ndarray Z.
Variable num_str : Q -> string.
Variables (spatial_subsample slice_size_mm : Q) (expand_slice min_depth : Z).

Definition processed_dir : string :=
  "Full-Torso-(" +:+ num_str spatial_subsample +:+ "," +:+ num_str slice_size_mm +:+ ")".
Definition new_ct_path : string := path_join processed_dir "ct".
Definition new_seg_dir : string := path_join processed_dir "seg".

(** The two resampled arrays of a pair, lines 53 to 59. *)
Definition new_dims (f : torso_pair) : Q * Q * Q :=
  ((GetSpacing (torso_ct f)).2 / slice_size_mm, spatial_subsample, spatial_subsample)%Q.
Definition resampled_ct (f : torso_pair) : ndarray Z :=
  zoom (np_clip (GetArrayFromImage (torso_ct f)) IMG_MIN_VAL IMG_MAX_VAL) (new_dims f) 3.
Definition resampled_seg (f : torso_pair) : ndarray Z :=
  zoom (GetArrayFromImage (torso_seg f)) (new_dims f) 0.

(** The body of the loop over the directory listing, lines 43 to 90: the
    images written, with their paths, and how the iteration ended. *)
Definition process_pair (f : torso_pair) : list (string * sitk_image) * result unit :=
  let ct := torso_ct f in
  let ct_filename := torso_filename f in
  if bool_decide (shape (GetArrayFromImage (torso_seg f)) = shape (GetArrayFromImage ct))
  then
    if Qeq_bool slice_size_mm 0 then ([], Raise ZeroDivisionError)
    else
      let ct_array := resampled_ct f in
      let seg_array := resampled_seg f in
      let z := np_any_12 seg_array in
      match first_and_last (np_where_1d z) with
      | Raise e => ([], Raise e)
      | Ok (start_slice, end_slice) =>
          let start_slice := Z.max 0 (start_slice - expand_slice) in
          let end_slice := Z.min ((shape seg_array).1.1 - 1) (end_slice + expand_slice) in
          if end_slice - start_slice + 1 <? min_depth then ([], Ok ())
          else
            let ct_array :=
              getitem ct_array
                (Slice start_slice (end_slice + 1), full_slice (shape ct_array).1.2,
                 full_slice (shape ct_array).2) in
            let seg_array :=
              getitem seg_array
                (Slice start_slice (end_slice + 1), full_slice (shape seg_array).1.2,
                 full_slice (shape seg_array).2) in
            if Qeq_bool spatial_subsample 0 then ([], Raise ZeroDivisionError)
            else
              let '(sx, sy, _) := GetSpacing ct in
              let k := inject_Z (py_int (1 / spatial_subsample)) in
              let new_ct := GetImageFromArray ct_array (GetDirection ct) (GetOrigin ct) in
              match SetSpacing new_ct ((sx * k)%Q, (sy * k)%Q, slice_size_mm) with
              | Raise e => ([], Raise e)
              | Ok new_ct =>
                  let new_seg :=
                    GetImageFromArray seg_array (GetDirection ct) (GetOrigin ct) in
                  match SetSpacing new_seg (sx, sy, slice_size_mm) with
                  | Raise e => ([], Raise e)
                  | Ok new_seg =>
                      ([(path_join new_ct_path ct_filename, new_ct);
                        (path_join new_seg_dir
                           (str_replace ".nii" ".nii"
                              (str_replace "volume" "segmentation" ct_filename)),
                         new_seg)],
                       Ok ())
                  end
              end
      end
  else ([], Raise AssertionError).

(** [create_normal_dataset] over the directory listing: what was written
    before an exception stays, nothing is done after it. *)
Fixpoint create_normal_dataset (listing : list torso_pair)
    : list (string * sitk_image) * result unit :=
  match listing with
  | [] => ([], Ok ())
  | f :: rest =>
      match process_pair f with
      | (log, Raise e) => (log, Raise e)
      | (log, Ok _) =>
          let '(log', r) := create_normal_dataset rest in (log ++ log', r)
      end
  end.

End NormalDataset.
End Normal.

(** ** Reference instances and concrete volumes *)

(** A volume that holds [v] inside the box from [lo] (inclusive) to [hi]
    (exclusive) and 0 elsewhere. *)
Definition box_volume (s lo hi : idx) (v : Z) : ndarray Z :=
  NdArray s (fun p =>
    let '(i, j, k) := p in let '(a, b, c) := lo in let '(a', b', c') := hi in
    if (a <=? i) && (i <? a') && (b <=? j) && (j <? b') && (c <=? k) && (k <? c')
    then v else 0).

Definition constant_volume (s : idx) (v : Z) : ndarray Z := NdArray s (fun _ => v).

(** The scenario of section 8: label 2 on [10:20, 30:40, 30:40] of a volume of
    shape (50, 100, 100). *)
Definition scenario_labels : ndarray Z :=
  box_volume (50, 100, 100) (10, 30, 30) (20, 40, 40) 2.
Definition scenario_ct : ndarray Z := constant_volume (50, 100, 100) 0.
Definition scenario_params : cropping_params :=
  CroppingParams 2 (1, 2, 2) (1 # 2) 3.

(** A nearest-neighbour resampler, the instance of [zoom] the examples run
    with: every output voxel is a copy of the input voxel it falls on. *)
Definition zoom_axis_len (n : Z) (z : Q) : Z :=
  if n <=? 0 then 0 else Z.max 0 (Qfloor (inject_Z n * z + (1 # 2))).
Definition zoom_axis_src (n : Z) (z : Q) (i : Z) : Z :=
  Z.min (n - 1) (Z.max 0 (Qfloor (inject_Z i / z))).

Definition nearest_origin (s : idx) (dims : Q * Q * Q) (p : idx) : idx :=
  let '(d, h, w) := s in let '(z0, z1, z2) := dims in let '(i, j, k) := p in
  (zoom_axis_src d z0 i, zoom_axis_src h z1 j, zoom_axis_src w z2 k).

Definition nearest_zoom (a : ndarray Z) (dims : Q * Q * Q) (order : Z) : ndarray Z :=
  let '(d, h, w) := shape a in let '(z0, z1, z2) := dims in
  NdArray (zoom_axis_len d z0, zoom_axis_len h z1, zoom_axis_len w z2)
          (fun p => item a (nearest_origin (shape a) dims p)).

(** A decimal rendering of a rational, the instance of [num_str] the examples
    run with: an integer prints as [str(int)] does, anything else with its
    fractional digits, seventeen at most. *)
Fixpoint frac_digits (fuel : nat) (r den : Z) : string :=
  match fuel with
  | O => EmptyString
  | S n => if r =? 0 then EmptyString
           else pretty ((10 * r) `div` den) +:+ frac_digits n ((10 * r) `mod` den) den
  end.
Definition decimal_str (q : Q) : string :=
  let n := Qnum q in let d := Z.pos (Qden q) in
  if d =? 1 then pretty n
  else (if n <? 0 then "-" else EmptyString) +:+ pretty (Z.abs n `div` d)
       +:+ "." +:+ frac_digits 17 (Z.abs n `mod` d) d.

(** ** Predicates of the statements *)

(** What the cropper relies on from a component labeling: ids are not
    negative, and two foreground voxels that touch (26-connectivity) carry the
    same id. *)
Definition component_labelling (cc : ndarray Z) : Prop :=
  forall p, in_bounds (shape cc) p ->
    0 <= item cc p /\
    forall q, in_bounds (shape cc) q -> near p q = true ->
      item cc p <> 0 -> item cc q <> 0 -> item cc p = item cc q.

(** What holds of the components once the voxels [P] are in: every voxel is
    in a component, and a component holds every voxel of [P] that touches
    one of its own. *)
Definition labelled (P : list idx) (comps : list (list idx)) : Prop :=
  (forall u, u ∈ P -> exists C, C ∈ comps /\ u ∈ C)
  /\ (forall C u w, C ∈ comps -> u ∈ C -> w ∈ P -> near u w = true -> w ∈ C).

(** Section 4.3 in its own words: inside the tight box, the voxels of
    components other than background and other than the blob's own, over all
    the voxels of the box. *)
Definition other_occurrences (cc : ndarray Z) (box : ranges) (label : Z) : Z :=
  Z.of_nat (length (List.filter (fun v => negb (v =? 0) && negb (v =? label))
                                (flatten (getitem cc box)))).
Definition total_voxels_in_box (cc : ndarray Z) (box : ranges) : Z :=
  Z.of_nat (length (flatten (getitem cc box))).
Definition contamination (cc : ndarray Z) (box : ranges) (label : Z) : Q :=
  ratio (other_occurrences cc box label) (total_voxels_in_box cc box).

(** [old] occurs in [s]; the character [c] does not occur in [s]. *)
Fixpoint occurs (old s : string) : bool :=
  String.prefix old s
  || match s with EmptyString => false | String _ s' => occurs old s' end.
Fixpoint lacks (c : ascii) (s : string) : bool :=
  match s with
  | EmptyString => true
  | String a s' => negb (Ascii.eqb a c) && lacks c s'
  end.

(** Shapes: no negative extent, and one shape at least another on every axis. *)
Definition valid_shape (s : idx) : Prop :=
  let '(d, h, w) := s in 0 <= d /\ 0 <= h /\ 0 <= w.
Definition shape_ge (s m : idx) : Prop :=
  let '(d, h, w) := s in let '(m0, m1, m2) := m in m0 <= d /\ m1 <= h /\ m2 <= w.

(** The source voxel of the label volume behind voxel [p] of a persisted
    label crop cut through [seg_view]: with resampling, [origin] tells which
    voxel of the crop the resampler copied. *)
Definition source_voxel (cfg : dataset_config) (origin : idx -> Q * Q * Q -> idx -> idx)
    (spacing : Q) (seg_view : view) (p : idx) : idx :=
  shift (offset seg_view)
    (if negb (Qeq_bool (slice_size_mm cfg) 1) || negb (Qeq_bool (spatial_scale cfg) 1)
     then origin (extent seg_view)
                 ((spacing / slice_size_mm cfg)%Q, spatial_scale cfg, spatial_scale cfg) p
     else p).

(** ** Concrete inputs *)

(** One voxel of label 1 in the middle of a 3 x 3 x 3 volume, no margins. *)
Definition single_voxel_labels : ndarray Z :=
  box_volume (3, 3, 3) (1, 1, 1) (2, 2, 2) 1.
Definition no_margin_params : cropping_params :=
  CroppingParams 1 (0, 0, 0) (1 # 2) 0.

(** Two voxels of label 1 with a gap of one voxel between them. *)
Definition gap_labels : ndarray Z :=
  NdArray (1, 1, 3) (fun p => if p.2 =? 1 then 0 else 1).
Definition gap_params (md : Z) : cropping_params :=
  CroppingParams 1 (1, 1, 1) (1 # 2) md.

(** Two separate voxels of label 1 in one row, far enough apart for their
    margined boxes to have the same extents. *)
Definition twin_labels : ndarray Z :=
  NdArray (1, 1, 13) (fun p => if (p.2 =? 3) || (p.2 =? 9) then 1 else 0).
Definition twin_ct : ndarray Z :=
  NdArray (1, 1, 13) (fun p => 100 + p.2).
Definition twin_pair : source_pair :=
  SourcePair "volume-0.nii" twin_ct 1 twin_labels.
Definition twin_config : dataset_config :=
  DatasetConfig 1 1 (1, 1, 1) (Some (CroppingParams 1 (1, 2, 2) (1 # 2) 3)) (Some false).

(** A component of label 1 shaped like a U and, inside its bounding box
    without touching it, a second component of one voxel. *)
Definition ring_labels : ndarray Z :=
  NdArray (1, 5, 5) (fun p =>
    let j := p.1.2 in let k := p.2 in
    if (j =? 0) || (k =? 0) || (k =? 4) || ((j =? 3) && (k =? 2)) then 1 else 0).
Definition ring_params : cropping_params := CroppingParams 1 (1, 1, 1) (1 # 100) 0.

(** Two tumour voxels (label 2) in a row of liver (label 1); with a margin of
    three the two crops overlap, and the volume is resampled in plane. *)
Definition liver_labels : ndarray Z :=
  NdArray (1, 1, 9) (fun p => if (p.2 =? 2) || (p.2 =? 6) then 2 else 1).
Definition liver_pair : source_pair :=
  SourcePair "volume-3.nii" (constant_volume (1, 1, 9) 700) 1 liver_labels.
Definition liver_config : dataset_config :=
  DatasetConfig 1 2 (1, 1, 1) (Some (CroppingParams 2 (1, 1, 3) (1 # 2) 3)) (Some true).
(** Three tumour voxels close enough for the three crops to overlap, without
    resampling. *)
Definition crowded_labels : ndarray Z :=
  NdArray (1, 1, 9) (fun p =>
    if (p.2 =? 2) || (p.2 =? 4) || (p.2 =? 6) then 2 else 1).
Definition crowded_pair : source_pair :=
  SourcePair "volume-4.nii" (constant_volume (1, 1, 9) 700) 1 crowded_labels.
Definition crowded_config : dataset_config :=
  DatasetConfig 1 1 (1, 1, 1) (Some (CroppingParams 2 (1, 1, 3) (1 # 2) 3)) (Some true).

(** A CT file whose name does not hold ["volume"], and a pair whose shapes
    differ. *)
Definition scan_pair : source_pair :=
  SourcePair "scan-7.nii" twin_ct 1 twin_labels.
Definition mismatched_pair : source_pair :=
  SourcePair "volume-1.nii" (constant_volume (1, 1, 2) 0) 1 (constant_volume (1, 1, 3) 0).

(** The remap as read off a saved label crop: a saved 1 was a 2 in the label
    volume of the file, and a 1 of that volume is not saved as 1. *)
Definition labels_remapped (cfg : dataset_config)
    (origin : idx -> Q * Q * Q -> idx -> idx) (f : source_pair) (seg_view : view)
    (s : saved) : Prop :=
  forall p, in_bounds (shape (seg_npy s)) p ->
    let q := source_voxel cfg origin (ct_spacing f) seg_view p in
    in_bounds (shape (seg_image f)) q
    /\ (item (seg_npy s) p = 1 -> item (seg_image f) q = 2)
    /\ (item (seg_image f) q = 1 -> item (seg_npy s) p <> 1).

(** How a voxel of the label buffer relates to the voxel the file was
    loaded with, after any number of remaps through overlapping crops. *)
Definition remapped (src cur : Z) : Prop :=
  cur = src \/ (src = 1 /\ cur = 0) \/ (src = 2 /\ (cur = 1 \/ cur = 0)).

(** What a save is observed by: its two paths and the flattened arrays. *)
Definition summary (s : saved) : string * string * list Z * list Z :=
  (ct_path s, seg_path s, flatten (ct_npy s), flatten (seg_npy s)).

(** The same parameters with another [mask_dilation]. *)
Definition with_mask_dilation (p : cropping_params) (md : Z) : cropping_params :=
  CroppingParams (cropping_lable p) (slice_margins p) (allowed_perc_other_blobs p) md.

(** The paths the crops of [twin_pair] are saved under. *)
Definition twin_ct_path : string :=
  "LiverData_(S-1_MS-(1, 1, 1)_MM-1RL-False_CP-[CL-1_margins-(1, 2, 2)_OB-0.5_MD-3])/ct/volume-0-(0-1-2).npy".
Definition twin_seg_path : string :=
  "LiverData_(S-1_MS-(1, 1, 1)_MM-1RL-False_CP-[CL-1_margins-(1, 2, 2)_OB-0.5_MD-3])/ct/segmentation-0-(0-1-2).npy".

(** A cubic resampler, the instance of [zoom] the example of the clipping
    runs with.  For order 3 it interpolates along the last axis with the
    Catmull-Rom cubic, at the positions [k * (w - 1) / (w' - 1)] that
    [ndimage.zoom] samples, the border voxel repeated and the result rounded
    to the nearest integer; the other two axes, and the other orders, are
    resampled as [nearest_zoom] does.  The weights are not those of scipy's
    spline; what the two share is that the outer neighbours weigh negatively,
    so that a result can leave the range of the input. *)
Definition cubic_sample (row : Z -> Z) (n : Z) (x : Q) : Z :=
  let i := Qfloor x in
  let t := (x - inject_Z i)%Q in
  let get j := inject_Z (row (Z.min (n - 1) (Z.max 0 j))) in
  let p0 := get (i - 1) in
  let p1 := get i in
  let p2 := get (i + 1) in
  let p3 := get (i + 2) in
  Qfloor (p1 + (1 # 2) * t * ((p2 - p0)
                + t * ((2 * p0 - 5 * p1 + 4 * p2 - p3)
                       + t * (3 * (p1 - p2) + p3 - p0))) + (1 # 2))%Q.

Definition cubic_zoom (a : ndarray Z) (dims : Q * Q * Q) (order : Z) : ndarray Z :=
  if order =? 3 then
    let '(d, h, w) := shape a in let '(z0, z1, z2) := dims in
    let w' := zoom_axis_len w z2 in
    NdArray (zoom_axis_len d z0, zoom_axis_len h z1, w')
            (fun p =>
               let '(i, j, k) := p in
               let i0 := zoom_axis_src d z0 i in
               let j0 := zoom_axis_src h z1 j in
               let x := if w' <=? 1 then 0%Q
                        else (inject_Z (k * (w - 1)) / inject_Z (w' - 1))%Q in
               cubic_sample (fun k' => item a (i0, j0, k')) w x)
  else nearest_zoom a dims order.

(** A CT volume with an edge from below the clipping range to above it,
    saved whole and resampled in plane by a factor of two. *)
Definition edge_ct : ndarray Z :=
  NdArray (2, 2, 6) (fun p => if p.2 <? 3 then -1000 else 1000).
Definition edge_pair : source_pair :=
  SourcePair "volume-2.nii" edge_ct 1 (constant_volume (2, 2, 6) 1).
Definition edge_config : dataset_config :=
  DatasetConfig 1 2 (1, 1, 1) None None.

(** A shape without an empty axis. *)
Definition nonempty_shape (s : idx) : Prop :=
  let '(d, h, w) := s in 0 < d /\ 0 < h /\ 0 < w.

(** The same parameters with another tolerance. *)
Definition with_tolerance (p : cropping_params) (a : Q) : cropping_params :=
  CroppingParams (cropping_lable p) (slice_margins p) a (mask_dilation p).

(** The margined ranges of a blob whose voxels span [lo] to [hi]. *)
Definition margined (margins : Z * Z * Z) (lo hi : idx) : ranges :=
  let '(m0, m1, m2) := margins in
  let '(l0, l1, l2) := lo in let '(h0, h1, h2) := hi in
  (Slice (Z.max 0 (l0 - m0)) (h0 + m0), Slice (Z.max 0 (l1 - m1)) (h1 + m1),
   Slice (Z.max 0 (l2 - m2)) (h2 + m2)).

(** A pair without labels, and a configuration with a slice size of 0. *)
Definition unlabelled_pair : source_pair :=
  SourcePair "volume-9.nii" twin_ct 1 (constant_volume (1, 1, 13) 0).
Definition zero_slice_config : dataset_config :=
  DatasetConfig 0 1 (1, 1, 1) None (Some false).

(** A scan of five slices with labels on the slices 2 and 3, and one
    without labels. *)
Definition torso_labels : ndarray Z :=
  NdArray (5, 1, 2) (fun p => if (p.1.1 =? 2) || (p.1.1 =? 3) then 1 else 0).
Definition torso_scan : torso_pair :=
  TorsoPair "volume-5.nii"
    (SitkImage (NdArray (5, 1, 2) (fun p => 100 * p.1.1 + p.2)) (1%Q, 1%Q, 1%Q) [] (0%Q, 0%Q, 0%Q))
    (SitkImage torso_labels (1%Q, 1%Q, 1%Q) [] (0%Q, 0%Q, 0%Q)).
Definition empty_scan : torso_pair :=
  TorsoPair "volume-6.nii"
    (SitkImage (constant_volume (5, 1, 2) 7) (1%Q, 1%Q, 1%Q) [] (0%Q, 0%Q, 0%Q))
    (SitkImage (constant_volume (5, 1, 2) 0) (1%Q, 1%Q, 1%Q) [] (0%Q, 0%Q, 0%Q)).

(** [s[n:]]. *)
Fixpoint skip_chars (n : nat) (s : string) : string :=
  match n, s with
  | S n', String _ s' => skip_chars n' s'
  | _, _ => s
  end.

(** * Properties *)

(** ** Indices, minima and maxima *)

Lemma in_boundsb_spec s p : in_boundsb s p = true <-> in_bounds s p.
Proof.
  destruct s as [[d h] w], p as [[i j] k]. unfold in_boundsb, in_bounds.
  rewrite !andb_true_iff, !Z.leb_le, !Z.ltb_lt. tauto.
Qed.

Lemma elem_of_indices s p : p ∈ indices s <-> in_bounds s p.
Proof.
  destruct s as [[d h] w], p as [[i j] k]. unfold indices, in_bounds. cbv zeta.
  rewrite list_elem_of_bind. split.
  - intros (i' & Hi & Hd). apply list_elem_of_bind in Hi as (j' & Hi & Hh).
    apply list_elem_of_bind in Hi as (k' & Hi & Hw).
    apply list_elem_of_singleton in Hi. inversion Hi; subst.
    apply elem_of_seqZ in Hd, Hh, Hw. lia.
  - intros (Hi & Hj & Hk). exists i. split; [|apply elem_of_seqZ; lia].
    apply list_elem_of_bind. exists j. split; [|apply elem_of_seqZ; lia].
    apply list_elem_of_bind. exists k. split; [|apply elem_of_seqZ; lia].
    apply list_elem_of_singleton. reflexivity.
Qed.

Lemma length_bind_const {A B} (f : A -> list B) (l : list A) n :
  (forall x, length (f x) = n) -> length (l ≫= f) = (length l * n)%nat.
Proof.
  intros Hf. induction l as [|x l IH]; [reflexivity|].
  rewrite bind_cons, length_app, IH, Hf. simpl. lia.
Qed.

Lemma length_indices d h w :
  0 <= d -> 0 <= h -> 0 <= w -> Z.of_nat (length (indices (d, h, w))) = d * h * w.
Proof.
  intros Hd Hh Hw. unfold indices. cbv zeta.
  rewrite (length_bind_const _ _ (Z.to_nat h * Z.to_nat w)%nat).
  - rewrite length_seqZ. lia.
  - intros i. rewrite (length_bind_const _ _ (Z.to_nat w)).
    + rewrite length_seqZ. lia.
    + intros j. rewrite (length_bind_const _ _ 1%nat).
      * rewrite length_seqZ. lia.
      * reflexivity.
Qed.

Lemma amin_spec x lo : amin x = Ok lo -> lo ∈ x /\ forall y, y ∈ x -> lo <= y.
Proof.
  destruct x as [|a l]; [discriminate|]. simpl. intros [= <-].
  induction l as [|b l [IH1 IH2]]; simpl.
  - split; [left|]. intros y Hy. apply list_elem_of_singleton in Hy. lia.
  - split.
    + destruct (Z.min_spec b (foldr Z.min a l)) as [[_ ->]|[_ ->]].
      * right; left.
      * apply elem_of_cons in IH1 as [->|H]; [left| right; right; exact H].
    + intros y Hy. apply elem_of_cons in Hy as [->|Hy].
      * specialize (IH2 a ltac:(left)). lia.
      * apply elem_of_cons in Hy as [->|Hy]; [lia|].
        specialize (IH2 y ltac:(right; exact Hy)). lia.
Qed.

Lemma amax_spec x hi : amax x = Ok hi -> hi ∈ x /\ forall y, y ∈ x -> y <= hi.
Proof.
  destruct x as [|a l]; [discriminate|]. simpl. intros [= <-].
  induction l as [|b l [IH1 IH2]]; simpl.
  - split; [left|]. intros y Hy. apply list_elem_of_singleton in Hy. lia.
  - split.
    + destruct (Z.max_spec b (foldr Z.max a l)) as [[_ ->]|[_ ->]].
      * apply elem_of_cons in IH1 as [->|H]; [left| right; right; exact H].
      * right; left.
    + intros y Hy. apply elem_of_cons in Hy as [->|Hy].
      * specialize (IH2 a ltac:(left)). lia.
      * apply elem_of_cons in Hy as [->|Hy]; [lia|].
        specialize (IH2 y ltac:(right; exact Hy)). lia.
Qed.

Lemma amin_nonempty x y : y ∈ x -> exists lo, amin x = Ok lo.
Proof. destruct x; [intros H; inversion H|]. simpl. eauto. Qed.
Lemma amax_nonempty x y : y ∈ x -> exists hi, amax x = Ok hi.
Proof. destruct x; [intros H; inversion H|]. simpl. eauto. Qed.

(** ** [np.unique], [np.delete] and the counts *)

Lemma elem_of_insert_uniq x y l : y ∈ insert_uniq x l <-> y = x \/ y ∈ l.
Proof.
  induction l as [|z l IH]; simpl.
  - rewrite list_elem_of_singleton. split; [auto|]. intros [H|H]; [auto|inversion H].
  - destruct (Z.ltb_spec x z).
    + rewrite elem_of_cons. tauto.
    + destruct (Z.eqb_spec x z).
      * subst. rewrite elem_of_cons. tauto.
      * rewrite !elem_of_cons, IH. tauto.
Qed.

Lemma elem_of_np_unique y l : y ∈ np_unique l <-> y ∈ l.
Proof.
  induction l as [|x l IH]; simpl; [tauto|].
  rewrite elem_of_insert_uniq, IH, elem_of_cons. tauto.
Qed.

Lemma insert_uniq_sorted x l :
  StronglySorted Z.lt l -> StronglySorted Z.lt (insert_uniq x l).
Proof.
  induction 1 as [|z l Hs IH Hall]; simpl.
  - repeat constructor.
  - destruct (Z.ltb_spec x z).
    + constructor; [constructor; assumption|].
      constructor; [assumption|].
      eapply Forall_impl; [exact Hall|]. simpl. intros; lia.
    + destruct (Z.eqb_spec x z); [constructor; assumption|].
      constructor; [assumption|].
      apply Forall_forall. intros y Hy. apply elem_of_insert_uniq in Hy as [->|Hy]; [lia|].
      rewrite Forall_forall in Hall. auto.
Qed.

Lemma np_unique_sorted l : StronglySorted Z.lt (np_unique l).
Proof. induction l; simpl; [constructor|]. apply insert_uniq_sorted; assumption. Qed.

Lemma sorted_NoDup l : StronglySorted Z.lt l -> NoDup l.
Proof.
  induction 1 as [|z l Hs IH Hall]; constructor; [|assumption].
  intros Hin. rewrite Forall_forall in Hall. specialize (Hall z Hin). lia.
Qed.

Lemma np_unique_all_same l v :
  l <> [] -> (forall x, x ∈ l -> x = v) -> np_unique l = [v].
Proof.
  induction l as [|x l IH]; [congruence|]. intros _ Hall. simpl.
  assert (x = v) as -> by (apply Hall; left).
  destruct l as [|y l]; [reflexivity|].
  rewrite IH; [|discriminate|intros z Hz; apply Hall; right; exact Hz].
  simpl. rewrite Z.ltb_irrefl, Z.eqb_refl. reflexivity.
Qed.

Lemma first_index_nonneg vs v j : first_index vs v = Ok j -> 0 <= j.
Proof.
  revert j. induction vs as [|y vs IH]; simpl; [discriminate|]. intros j.
  destruct (y =? v); [intros [= <-]; lia|].
  destruct (first_index vs v) as [i|]; simpl; [|discriminate].
  intros [= <-]. specialize (IH i eq_refl). lia.
Qed.

Lemma first_index_found vs v :
  v ∈ vs -> exists j, first_index vs v = Ok j /\ 0 <= j < Z.of_nat (length vs).
Proof.
  induction vs as [|y vs IH]; [intros H; inversion H|]. simpl.
  intros Hin. destruct (Z.eqb_spec y v).
  - exists 0. split; [reflexivity|lia].
  - apply elem_of_cons in Hin as [->|Hin]; [congruence|].
    destruct (IH Hin) as (j & -> & Hj). exists (j + 1). split; [reflexivity|lia].
Qed.

Lemma drop_at_none pos obj (l : list Z) :
  (forall i, pos <= i -> i ∉ obj) -> drop_at pos obj l = l.
Proof.
  revert pos. induction l as [|c l IH]; intros pos H; simpl; [reflexivity|].
  rewrite bool_decide_eq_false_2 by (apply H; lia).
  f_equal. apply IH. intros i Hi. apply H. lia.
Qed.

Lemma drop_at_first_index (f : Z -> Z) vs label pos j :
  NoDup vs -> 1 <= pos -> first_index vs label = Ok j ->
  drop_at pos [0; pos + j] (f <$> vs)
  = f <$> List.filter (fun v => negb (v =? label)) vs.
Proof.
  revert pos j. induction vs as [|y vs IH]; intros pos j Hnd Hpos; simpl; [discriminate|].
  apply NoDup_cons in Hnd as [Hy Hnd].
  destruct (Z.eqb_spec y label) as [->|Hne]; simpl.
  - intros [= <-]. rewrite bool_decide_eq_true_2
      by (rewrite Z.add_0_r; right; left).
    rewrite drop_at_none.
    + f_equal. symmetry. apply forallb_filter_id.
      apply forallb_forall. intros x Hx. apply list_elem_of_In in Hx.
      apply negb_true_iff, Z.eqb_neq. intros ->. contradiction.
    + intros i Hi Hin. rewrite !elem_of_cons in Hin.
      destruct Hin as [->|[->|Hin]]; [lia|lia|inversion Hin].
  - destruct (first_index vs label) as [i|] eqn:Hi; simpl; [|discriminate].
    intros [= <-]. pose proof (first_index_nonneg _ _ _ Hi).
    rewrite bool_decide_eq_false_2.
    + simpl. f_equal. replace (pos + (i + 1)) with ((pos + 1) + i) by lia.
      apply IH; [assumption|lia|reflexivity].
    + intros Hin. rewrite !elem_of_cons in Hin.
      destruct Hin as [->|[?|Hin]]; [lia|lia|inversion Hin].
Qed.

Lemma np_sum_cons x l : np_sum (x :: l) = x + np_sum l.
Proof. reflexivity. Qed.

Lemma np_sum_fmap_add {A} (a b : A -> Z) (l : list A) :
  np_sum ((fun v => a v + b v) <$> l) = np_sum (a <$> l) + np_sum (b <$> l).
Proof.
  induction l as [|x l IH]; [reflexivity|].
  rewrite !fmap_cons, !np_sum_cons, IH. lia.
Qed.

Lemma np_sum_indicator_absent (P : Z -> bool) l x :
  x ∉ l -> np_sum ((fun v => if v =? x then 1 else 0) <$> List.filter P l) = 0.
Proof.
  induction l as [|z l IH]; intros Hx; [reflexivity|].
  apply not_elem_of_cons in Hx as [Hne Hx]. simpl.
  destruct (P z); [|auto].
  rewrite fmap_cons, np_sum_cons, IH by assumption.
  destruct (Z.eqb_spec z x); [congruence|reflexivity].
Qed.

Lemma np_sum_indicator (P : Z -> bool) vs x :
  NoDup vs -> x ∈ vs ->
  np_sum ((fun v => if v =? x then 1 else 0) <$> List.filter P vs)
  = if P x then 1 else 0.
Proof.
  induction vs as [|y vs IH]; intros Hnd Hin; [inversion Hin|].
  apply NoDup_cons in Hnd as [Hy Hnd]. simpl.
  destruct (Z.eq_dec y x) as [->|Hne].
  - destruct (P x).
    + rewrite fmap_cons, np_sum_cons, np_sum_indicator_absent by assumption.
      rewrite Z.eqb_refl. reflexivity.
    + apply np_sum_indicator_absent. assumption.
  - apply elem_of_cons in Hin as [->|Hin]; [congruence|].
    destruct (P y); [|auto].
    rewrite fmap_cons, np_sum_cons, IH by assumption.
    destruct (Z.eqb_spec y x); [congruence|reflexivity].
Qed.

Lemma count_nil v : count [] v = 0.
Proof. reflexivity. Qed.
Lemma count_cons x L v : count (x :: L) v = (if v =? x then 1 else 0) + count L v.
Proof. unfold count. simpl. destruct (v =? x); simpl; lia. Qed.

Lemma sum_counts_filter (P : Z -> bool) vs L :
  NoDup vs -> (forall x, x ∈ L -> x ∈ vs) ->
  np_sum (count L <$> List.filter P vs) = Z.of_nat (length (List.filter P L)).
Proof.
  intros Hnd. induction L as [|x L IH]; intros Hin.
  - simpl. induction (List.filter P vs) as [|v l IHl]; [reflexivity|].
    rewrite fmap_cons, np_sum_cons, IHl. reflexivity.
  - rewrite (list_fmap_ext (count (x :: L))
               (fun v => (if v =? x then 1 else 0) + count L v))
      by (intros ? v _; apply count_cons).
    rewrite np_sum_fmap_add, np_sum_indicator, IH.
    + simpl. destruct (P x); simpl; lia.
    + intros y Hy. apply Hin. right. exact Hy.
    + assumption.
    + apply Hin. left.
Qed.

(** The count of lines 103 to 105 on the flattened box [L]. *)
Lemma other_count_list L label v0 rest :
  np_unique L = v0 :: rest -> label ∈ L ->
  (label_idx ← first_index (np_unique L) label;
   rest ← np_delete (count L <$> np_unique L) [0; label_idx];
   mret (np_sum rest))
  = Ok (Z.of_nat (length (List.filter
          (fun v => negb (v =? v0) && negb (v =? label)) L))).
Proof.
  intros Hu Hin.
  pose proof (sorted_NoDup _ (np_unique_sorted L)) as Hnd.
  assert (Hcover : forall x, x ∈ L -> x ∈ np_unique L)
    by (intros x; apply elem_of_np_unique).
  destruct (first_index_found (np_unique L) label) as (j & Hj & Hjb);
    [apply elem_of_np_unique; exact Hin|].
  rewrite Hj. simpl. unfold np_delete.
  rewrite length_fmap. simpl.
  replace ((0 <=? 0) && (0 <? Z.of_nat (length (np_unique L)))) with true
    by (symmetry; apply andb_true_iff; rewrite Z.leb_le, Z.ltb_lt; lia).
  replace ((0 <=? j) && (j <? Z.of_nat (length (np_unique L)))) with true
    by (symmetry; apply andb_true_iff; rewrite Z.leb_le, Z.ltb_lt; lia).
  simpl. unfold mret, result_ret. f_equal.
  rewrite <- (sum_counts_filter _ (np_unique L)) by assumption.
  f_equal. rewrite Hu in *. simpl.
  apply NoDup_cons in Hnd as [Hv0 Hnd].
  rewrite Z.eqb_refl. simpl. change (list_fmap Z Z (count L) rest) with (count L <$> rest).
  assert (Hrest : forall P, List.filter (fun v => negb (v =? v0) && P v) rest
                            = List.filter P rest).
  { intros P. apply filter_ext_in. intros x Hx. apply list_elem_of_In in Hx.
    destruct (Z.eqb_spec x v0); [subst; contradiction|reflexivity]. }
  rewrite Hrest. simpl in Hj.
  destruct (Z.eqb_spec v0 label) as [->|Hne].
  - injection Hj as <-. rewrite drop_at_none.
    + rewrite (forallb_filter_id _ rest); [reflexivity|].
      apply forallb_forall.
      intros x Hx. apply list_elem_of_In in Hx.
      apply negb_true_iff, Z.eqb_neq. intros ->. contradiction.
    + intros i Hi Hin'. rewrite !elem_of_cons in Hin'.
      destruct Hin' as [->|[->|Hin']]; [lia|lia|inversion Hin'].
  - destruct (first_index rest label) as [i|] eqn:Hi; simpl in Hj; [|discriminate].
    injection Hj as <-. replace (i + 1) with ((0 + 1) + i) by lia.
    rewrite (drop_at_first_index (count L) rest label (0 + 1) i);
      [reflexivity|assumption|lia|assumption].
Qed.

(** ** Ranges of one axis *)
Lemma axis_ranges x m y :
  y ∈ x ->
  exists lo hi,
    tight_range x = Ok (Slice lo (hi + 1))
    /\ margin_range m x = Ok (Slice (Z.max 0 (lo - m)) (hi + m))
    /\ lo ∈ x /\ hi ∈ x /\ forall z, z ∈ x -> lo <= z <= hi.
Proof.
  intros Hy.
  destruct (amin_nonempty _ _ Hy) as [lo Hlo], (amax_nonempty _ _ Hy) as [hi Hhi].
  exists lo, hi. unfold tight_range, margin_range. rewrite Hlo, Hhi. simpl.
  apply amin_spec in Hlo as [? Hlo]. apply amax_spec in Hhi as [? Hhi].
  repeat split; try assumption; [apply Hlo|apply Hhi]; assumption.
Qed.

Lemma elem_of_np_where_idx image p :
  p ∈ np_where_idx image <-> in_bounds (shape image) p /\ item image p = true.
Proof.
  unfold np_where_idx. rewrite list_elem_of_In, filter_In, <- list_elem_of_In,
    elem_of_indices. reflexivity.
Qed.

Lemma adjust_inside n i : 0 <= i <= n -> adjust n i = i.
Proof. intros H. unfold adjust. destruct (Z.ltb_spec i 0); lia. Qed.

(** The box of one component: the ranges the cropper computes and what they
    bound. *)
Lemma blob_ranges (image : ndarray bool) margins p0 :
  in_bounds (shape image) p0 -> item image p0 = true ->
  exists l0 l1 l2 h0 h1 h2,
    let '(m0, m1, m2) := margins in
    let '(d, h, w) := shape image in
    tight_ranges (np_where image)
      = Ok (Slice l0 (h0 + 1), Slice l1 (h1 + 1), Slice l2 (h2 + 1))
    /\ margin_ranges margins (np_where image)
      = Ok (Slice (Z.max 0 (l0 - m0)) (h0 + m0),
            Slice (Z.max 0 (l1 - m1)) (h1 + m1),
            Slice (Z.max 0 (l2 - m2)) (h2 + m2))
    /\ (0 <= l0 <= h0 /\ h0 < d) /\ (0 <= l1 <= h1 /\ h1 < h)
    /\ (0 <= l2 <= h2 /\ h2 < w)
    /\ forall i j k, in_bounds (shape image) (i, j, k) -> item image (i, j, k) = true ->
         l0 <= i <= h0 /\ l1 <= j <= h1 /\ l2 <= k <= h2.
Proof.
  intros Hb Hp0. destruct margins as [[m0 m1] m2].
  destruct (shape image) as [[d h] w] eqn:Hs.
  assert (Hin : p0 ∈ np_where_idx image)
    by (apply elem_of_np_where_idx; rewrite Hs; auto).
  assert (Hall : forall p, p ∈ np_where_idx image ->
            in_bounds (d, h, w) p /\ item image p = true)
    by (intros p Hp; apply elem_of_np_where_idx in Hp; rewrite Hs in Hp; exact Hp).
  destruct (axis_ranges ((np_where_idx image).*1.*1) m0 (p0.1.1))
    as (l0 & h0 & Ht0 & Hm0 & Hl0 & Hh0 & Hb0).
  { do 2 apply list_elem_of_fmap_2. exact Hin. }
  destruct (axis_ranges ((np_where_idx image).*1.*2) m1 (p0.1.2))
    as (l1 & h1 & Ht1 & Hm1 & Hl1 & Hh1 & Hb1).
  { do 2 apply list_elem_of_fmap_2. exact Hin. }
  destruct (axis_ranges ((np_where_idx image).*2) m2 (p0.2))
    as (l2 & h2 & Ht2 & Hm2 & Hl2 & Hh2 & Hb2).
  { apply list_elem_of_fmap_2. exact Hin. }
  exists l0, l1, l2, h0, h1, h2.
  unfold tight_ranges, margin_ranges, np_where.
  rewrite Ht0, Ht1, Ht2, Hm0, Hm1, Hm2. simpl.
  split; [reflexivity|]. split; [reflexivity|].
  assert (Hax0 : forall z, z ∈ (np_where_idx image).*1.*1 -> 0 <= z < d).
  { intros z Hz. apply list_elem_of_fmap in Hz as (q & -> & Hz).
    apply list_elem_of_fmap in Hz as (p & -> & Hz).
    destruct (Hall p Hz) as [Hp _]. destruct p as [[i j] k]. simpl in *. lia. }
  assert (Hax1 : forall z, z ∈ (np_where_idx image).*1.*2 -> 0 <= z < h).
  { intros z Hz. apply list_elem_of_fmap in Hz as (q & -> & Hz).
    apply list_elem_of_fmap in Hz as (p & -> & Hz).
    destruct (Hall p Hz) as [Hp _]. destruct p as [[i j] k]. simpl in *. lia. }
  assert (Hax2 : forall z, z ∈ (np_where_idx image).*2 -> 0 <= z < w).
  { intros z Hz. apply list_elem_of_fmap in Hz as (p & -> & Hz).
    destruct (Hall p Hz) as [Hp _]. destruct p as [[i j] k]. simpl in *. lia. }
  pose proof (Hax0 _ Hl0). pose proof (Hax0 _ Hh0). pose proof (Hb0 _ Hh0).
  pose proof (Hax1 _ Hl1). pose proof (Hax1 _ Hh1). pose proof (Hb1 _ Hh1).
  pose proof (Hax2 _ Hl2). pose proof (Hax2 _ Hh2). pose proof (Hb2 _ Hh2).
  repeat split; try lia.
  all: intros; assert (Hq : (i, j, k) ∈ np_where_idx image)
         by (apply elem_of_np_where_idx; rewrite Hs; auto).
  all: first [ apply (Hb0 i); change i with ((i, j, k).1.1)
             | apply (Hb1 j); change j with ((i, j, k).1.2)
             | apply (Hb2 k); change k with ((i, j, k).2) ];
       repeat apply list_elem_of_fmap_2; exact Hq.
Qed.

(** ** A box without background is one component *)
Lemma line_constant (f : Z -> Z) lo hi :
  (forall x, lo <= x <= hi -> f x <> 0) ->
  (forall x, f x <> 0 -> f (x + 1) <> 0 -> lo <= x -> x + 1 <= hi -> f x = f (x + 1)) ->
  forall x y, lo <= x <= hi -> lo <= y <= hi -> f x = f y.
Proof.
  intros Hnz Hstep.
  assert (Hlo : forall n : nat, lo + Z.of_nat n <= hi -> f (lo + Z.of_nat n) = f lo).
  { induction n as [|n IH]; intros Hn.
    - f_equal. lia.
    - rewrite <- IH by lia.
      replace (lo + Z.of_nat (S n)) with (lo + Z.of_nat n + 1) by lia.
      symmetry. apply Hstep; try lia; apply Hnz; lia. }
  intros x y Hx Hy.
  replace x with (lo + Z.of_nat (Z.to_nat (x - lo))) by lia.
  replace y with (lo + Z.of_nat (Z.to_nat (y - lo))) by lia.
  rewrite !Hlo by lia. reflexivity.
Qed.

Lemma box_single_component cc l0 l1 l2 h0 h1 h2 :
  component_labelling cc ->
  (forall i j k, l0 <= i <= h0 -> l1 <= j <= h1 -> l2 <= k <= h2 ->
     in_bounds (shape cc) (i, j, k) /\ item cc (i, j, k) <> 0) ->
  forall i j k a b c,
    l0 <= i <= h0 -> l1 <= j <= h1 -> l2 <= k <= h2 ->
    l0 <= a <= h0 -> l1 <= b <= h1 -> l2 <= c <= h2 ->
    item cc (i, j, k) = item cc (a, b, c).
Proof.
  intros Hcc Hbox i j k a b c Hi Hj Hk Ha Hb Hc.
  assert (Hnear : forall p q, in_bounds (shape cc) p -> in_bounds (shape cc) q ->
            near p q = true -> item cc p <> 0 -> item cc q <> 0 ->
            item cc p = item cc q).
  { intros p q Hp Hq. destruct (Hcc p Hp) as [_ H]. auto. }
  transitivity (item cc (a, j, k)).
  { apply (line_constant (fun x => item cc (x, j, k)) l0 h0); try assumption.
    - intros x Hx. apply Hbox; assumption.
    - intros x Hx Hx' ? ?. apply Hnear; try assumption.
      + apply Hbox; lia.
      + apply Hbox; lia.
      + simpl. rewrite !andb_true_iff, !Z.leb_le. lia. }
  transitivity (item cc (a, b, k)).
  { apply (line_constant (fun x => item cc (a, x, k)) l1 h1); try assumption.
    - intros x Hx. apply Hbox; assumption.
    - intros x Hx Hx' ? ?. apply Hnear; try assumption.
      + apply Hbox; lia.
      + apply Hbox; lia.
      + simpl. rewrite !andb_true_iff, !Z.leb_le. lia. }
  apply (line_constant (fun x => item cc (a, b, x)) l2 h2); try assumption.
  - intros x Hx. apply Hbox; assumption.
  - intros x Hx Hx' ? ?. apply Hnear; try assumption.
    + apply Hbox; lia.
    + apply Hbox; lia.
    + simpl. rewrite !andb_true_iff, !Z.leb_le. lia.
Qed.

Lemma elem_of_cc3d_each cc label image :
  (label, image) ∈ cc3d_each cc ->
  image = eq_scalar cc label /\ label <> 0
  /\ exists p0, in_bounds (shape cc) p0 /\ item cc p0 = label.
Proof.
  unfold cc3d_each. intros H.
  apply list_elem_of_fmap in H as (l & [= -> ->] & H).
  rewrite list_elem_of_In, filter_In, <- list_elem_of_In, elem_of_np_unique in H.
  destruct H as [H Hnz]. unfold flatten in H. apply list_elem_of_fmap in H as (p0 & -> & H).
  apply elem_of_indices in H.
  split; [reflexivity|]. split.
  - apply negb_true_iff, Z.eqb_neq in Hnz. exact Hnz.
  - eauto.
Qed.

Lemma Qgt_negb_le a b : negb (Qle_bool a b) = true <-> (b < a)%Q.
Proof.
  rewrite negb_true_iff. split.
  - intros H. apply Qnot_le_lt. intros Hle. apply Qle_bool_iff in Hle. congruence.
  - intros H. destruct (Qle_bool a b) eqn:E; [|reflexivity].
    apply Qle_bool_iff in E. apply Qlt_not_le in H. contradiction.
Qed.

Lemma basic_index_tight d h w l0 l1 l2 h0 h1 h2 :
  0 <= l0 <= h0 /\ h0 < d -> 0 <= l1 <= h1 /\ h1 < h -> 0 <= l2 <= h2 /\ h2 < w ->
  basic_index (d, h, w) (Slice l0 (h0 + 1), Slice l1 (h1 + 1), Slice l2 (h2 + 1))
  = View (l0, l1, l2) (h0 - l0 + 1, h1 - l1 + 1, h2 - l2 + 1).
Proof.
  intros. unfold basic_index, slice_start, slice_len. simpl.
  rewrite !adjust_inside by lia. f_equal. f_equal; [f_equal|]; lia.
Qed.

Lemma elem_of_flatten_deref (cc : ndarray Z) o0 o1 o2 e x :
  x ∈ flatten (deref cc (View (o0, o1, o2) e))
  <-> exists i j k, in_bounds e (i, j, k) /\ x = item cc (o0 + i, o1 + j, o2 + k).
Proof.
  unfold flatten, deref. simpl. rewrite list_elem_of_fmap. split.
  - intros ([[i j] k] & -> & Hp). apply elem_of_indices in Hp. eauto.
  - intros (i & j & k & Hp & ->). exists (i, j, k). split; [reflexivity|].
    apply elem_of_indices. exact Hp.
Qed.

Lemma filter_nil_all {A} (P : A -> bool) l :
  (forall x, x ∈ l -> P x = false) -> List.filter P l = [].
Proof.
  induction l as [|y l IH]; intros H; [reflexivity|]. simpl.
  rewrite (H y) by left. apply IH. intros x Hx. apply H. right. exact Hx.
Qed.

Lemma sorted_head_least v0 rest x :
  StronglySorted Z.lt (v0 :: rest) -> x ∈ v0 :: rest -> v0 <= x.
Proof.
  intros Hs Hx. inversion Hs as [|? ? _ Hall]; subst.
  apply elem_of_cons in Hx as [->|Hx]; [lia|].
  rewrite Forall_forall in Hall. specialize (Hall x Hx). lia.
Qed.

(** ** The reference labeling is a component labeling *)

Lemma near_refl p : near p p = true.
Proof.
  destruct p as [[i j] k]. simpl. rewrite !Z.sub_diag. reflexivity.
Qed.

Lemma near_sym p q : near p q = near q p.
Proof.
  destruct p as [[i j] k], q as [[a b] c]. simpl.
  rewrite <- (Z.abs_opp (i - a)), <- (Z.abs_opp (j - b)), <- (Z.abs_opp (k - c)).
  rewrite !Z.opp_sub_distr, !(Z.add_comm (- _)). reflexivity.
Qed.

Lemma idx_eqb_eq p q : idx_eqb p q = true <-> p = q.
Proof.
  destruct p as [[i j] k], q as [[a b] c]. simpl.
  rewrite !andb_true_iff, !Z.eqb_eq. split; [intros [[-> ->] ->]; reflexivity|].
  intros [= -> -> ->]. auto.
Qed.

Lemma touches_spec v C : touches v C = true <-> exists u, u ∈ C /\ near v u = true.
Proof.
  unfold touches. rewrite existsb_exists. setoid_rewrite list_elem_of_In. reflexivity.
Qed.

Lemma member_spec p C : existsb (idx_eqb p) C = true <-> p ∈ C.
Proof.
  rewrite existsb_exists. setoid_rewrite <- list_elem_of_In. split.
  - intros (q & Hq & Heq). apply idx_eqb_eq in Heq. subst. exact Hq.
  - intros H. exists p. split; [exact H|apply idx_eqb_eq; reflexivity].
Qed.

(** The components after absorbing [v]: those it does not touch, and the one
    made of [v] and of all those it touches. *)
Lemma elem_of_absorb v comps D :
  D ∈ absorb v comps
  <-> (D ∈ comps /\ touches v D = false)
      \/ D = v :: concat (List.filter (touches v) comps).
Proof.
  induction comps as [|C rest IH]; simpl.
  - rewrite list_elem_of_singleton. split; [auto|].
    intros [[H _]|H]; [inversion H|exact H].
  - destruct (touches v C) eqn:Ht; simpl.
    + rewrite !elem_of_cons.
      rewrite list_elem_of_In, filter_In, <- list_elem_of_In, negb_true_iff.
      split.
      * intros [->|[H1 H2]]; [right; reflexivity|left; auto].
      * intros [[[->|H1] H2]| ->]; [congruence|right; auto|left; reflexivity].
    + rewrite !elem_of_cons, IH. split.
      * intros [->|[[H1 H2]|H]]; [left; auto|left; auto|right; exact H].
      * intros [[[->|H1] H2]|H]; [left; reflexivity|right; left; auto|right; right; exact H].
Qed.

Lemma labelled_absorb P comps v :
  labelled P comps -> labelled (v :: P) (absorb v comps).
Proof.
  intros [Hcover Hclosed].
  set (M := v :: concat (List.filter (touches v) comps)).
  assert (HM : forall C u, C ∈ comps -> touches v C = true -> u ∈ C -> u ∈ M).
  { intros C u HC Ht Hu. right. apply list_elem_of_In, in_concat.
    exists C. split; [apply filter_In; split; [apply list_elem_of_In|]; assumption|].
    apply list_elem_of_In. exact Hu. }
  assert (HM' : forall u, u ∈ M -> u = v \/ exists C, C ∈ comps /\ touches v C = true /\ u ∈ C).
  { intros u Hu. apply elem_of_cons in Hu as [->|Hu]; [left; reflexivity|right].
    apply list_elem_of_In, in_concat in Hu as (C & HC & Hu).
    apply filter_In in HC as [HC Ht]. exists C.
    rewrite !list_elem_of_In. auto. }
  assert (Hin : forall w, w ∈ P -> near v w = true -> w ∈ M).
  { intros w Hw Hn. destruct (Hcover w Hw) as (C & HC & HwC).
    apply (HM C); [assumption| |assumption]. apply touches_spec. eauto. }
  split.
  - intros u Hu. apply elem_of_cons in Hu as [->|Hu].
    + exists M. split; [apply elem_of_absorb; right; reflexivity|left].
    + destruct (Hcover u Hu) as (C & HC & HuC).
      destruct (touches v C) eqn:Ht.
      * exists M. split; [apply elem_of_absorb; right; reflexivity|eauto].
      * exists C. split; [apply elem_of_absorb; left; auto|exact HuC].
  - intros D u w HD Hu Hw Hn. apply elem_of_absorb in HD as [[HD Ht]| ->].
    + apply elem_of_cons in Hw as [->|Hw]; [|eauto].
      assert (touches v D = true); [|congruence].
      apply touches_spec. exists u. rewrite near_sym. auto.
    + fold M in Hu |- *. apply elem_of_cons in Hw as [->|Hw]; [left|].
      apply HM' in Hu as [->|(C & HC & Ht & Hu)]; [auto|].
      apply (HM C); [assumption..|]. eauto.
Qed.

Lemma labelled_components l P comps :
  labelled P comps ->
  exists P', (forall u, u ∈ P' <-> u ∈ l \/ u ∈ P)
             /\ labelled P' (foldl (fun comps v => absorb v comps) comps l).
Proof.
  revert P comps. induction l as [|v l IH]; intros P comps H; simpl.
  - exists P. split; [|exact H]. intros u. split; [auto|].
    intros [Hu|Hu]; [inversion Hu|exact Hu].
  - destruct (IH (v :: P) (absorb v comps) (labelled_absorb _ _ _ H)) as (P' & HP' & Hl).
    exists P'. split; [|exact Hl]. intros u. rewrite HP', !elem_of_cons. tauto.
Qed.

Lemma component_of_range p n comps : 0 <= n -> 0 <= component_of p n comps.
Proof.
  revert n. induction comps as [|C rest IH]; intros n Hn; simpl; [lia|].
  destruct (existsb _ C); [lia|]. apply IH. lia.
Qed.

Lemma component_of_found p n comps C :
  0 < n -> C ∈ comps -> p ∈ C -> 0 < component_of p n comps.
Proof.
  revert n. induction comps as [|D rest IH]; intros n Hn HC Hp; [inversion HC|].
  simpl. destruct (existsb (idx_eqb p) D) eqn:E; [lia|].
  apply elem_of_cons in HC as [->|HC].
  - apply member_spec in Hp. congruence.
  - apply IH; [lia|assumption..].
Qed.

Lemma component_of_agree p q n comps :
  (forall C, C ∈ comps -> (p ∈ C <-> q ∈ C)) ->
  component_of p n comps = component_of q n comps.
Proof.
  revert n. induction comps as [|C rest IH]; intros n H; [reflexivity|]. simpl.
  assert (Hm : existsb (idx_eqb p) C = existsb (idx_eqb q) C).
  { apply eq_true_iff_eq. rewrite !member_spec. apply H. left. }
  rewrite Hm. destruct (existsb (idx_eqb q) C); [reflexivity|].
  apply IH. intros D HD. apply H. right. exact HD.
Qed.

Theorem reference_labelling_is_component_labelling (m : ndarray bool) :
  component_labelling (cc3d_connected_components m)
  /\ forall p, item (cc3d_connected_components m) p <> 0
               <-> in_bounds (shape m) p /\ item m p = true.
Proof.
  destruct (labelled_components (np_where_idx m) [] [])
    as (P & HP & Hcover & Hclosed).
  { split; [intros u Hu; inversion Hu|intros C u w HC; inversion HC]. }
  fold (components m) in Hcover, Hclosed.
  assert (Hfg : forall p, in_boundsb (shape m) p && item m p = true <-> p ∈ P).
  { intros p. rewrite HP, andb_true_iff, in_boundsb_spec, elem_of_np_where_idx.
    split; [auto|]. intros [H|H]; [exact H|inversion H]. }
  split.
  - intros p Hp. unfold cc3d_connected_components. cbn [shape item]. split.
    + destruct (in_boundsb (shape m) p && item m p); [|lia].
      apply component_of_range. lia.
    + intros q Hq Hnear.
      destruct (in_boundsb (shape m) p && item m p) eqn:Ep; [|congruence].
      destruct (in_boundsb (shape m) q && item m q) eqn:Eq; [|congruence].
      intros _ _. apply Hfg in Ep, Eq. apply component_of_agree.
      intros C HC. split; intros H.
      * apply (Hclosed C p q); assumption.
      * apply (Hclosed C q p); [assumption..|]. rewrite near_sym. exact Hnear.
  - intros p. unfold cc3d_connected_components. cbn [shape item].
    rewrite <- in_boundsb_spec, <- andb_true_iff.
    destruct (in_boundsb (shape m) p && item m p) eqn:Ep; [|split; [congruence|discriminate]].
    split; [reflexivity|]. intros _. apply Hfg in Ep.
    destruct (Hcover p Ep) as (C & HC & HpC).
    pose proof (component_of_found p 1 (components m) C ltac:(lia) HC HpC). lia.
Qed.

(** ** The overlap filter *)

Lemma bind_Ok {A B} (a : A) (f : A -> result B) : (Ok a ≫= f) = f a.
Proof. reflexivity. Qed.

Section OverlapFilter.

Variable connected_components : ndarray bool -> ndarray Z.

(** C4: for every blob candidate of a component labeling, the loop body
    does not raise and skips the blob exactly when the voxels of its tight
    box that carry an id other than 0 and other than the blob's own, divided
    by all the voxels of the box, exceed [allowed_perc_other_blobs]; a box
    without background voxels is no exception, since it lies inside one
    component. *)
Theorem overlap_filter_rejects_iff_contaminated
    (image_volume labels_volume : ndarray Z) (params : cropping_params)
    (label : Z) (image : ndarray bool) :
  let cc := connected_components
              (eq_scalar labels_volume (cropping_lable params)) in
  component_labelling cc ->
  (label, image) ∈ cc3d_each cc ->
  exists box o,
    tight_ranges (np_where image) = Ok box
    /\ blob_crop image_volume labels_volume cc params label image = Ok o
    /\ (o = None <->
        (allowed_perc_other_blobs params < contamination cc box label)%Q).
Proof.
  intros cc Hcc Hblob.
  apply elem_of_cc3d_each in Hblob as (-> & Hnz & p0 & Hp0 & Hlab).
  destruct (blob_ranges (eq_scalar cc label) (slice_margins params) p0)
    as (l0 & l1 & l2 & h0 & h1 & h2 & Hr);
    [exact Hp0|simpl; apply Z.eqb_eq; exact Hlab|].
  destruct (slice_margins params) as [[m0 m1] m2] eqn:Hmg.
  change (shape (eq_scalar cc label)) with (shape cc) in Hr.
  destruct (shape cc) as [[d h] w] eqn:Hs.
  destruct Hr as (Ht & Hm & H0 & H1 & H2 & Hin).
  set (box := (Slice l0 (h0 + 1), Slice l1 (h1 + 1), Slice l2 (h2 + 1))) in *.
  assert (Hget : getitem cc box
                 = deref cc (View (l0, l1, l2) (h0 - l0 + 1, h1 - l1 + 1, h2 - l2 + 1))).
  { unfold getitem. rewrite Hs. unfold box. rewrite basic_index_tight by assumption.
    reflexivity. }
  set (L := flatten (getitem cc box)).
  assert (HL : forall x, x ∈ L <-> exists i j k,
                 (l0 <= i <= h0 /\ l1 <= j <= h1 /\ l2 <= k <= h2)
                 /\ x = item cc (i, j, k)).
  { intros x. unfold L. rewrite Hget, elem_of_flatten_deref. split.
    - intros (i & j & k & Hb & ->). exists (l0 + i), (l1 + j), (l2 + k).
      simpl in Hb. split; [lia|reflexivity].
    - intros (i & j & k & Hb & ->). exists (i - l0), (j - l1), (k - l2).
      split; [simpl; lia|]. do 2 f_equal; [f_equal|]; lia. }
  assert (Hbnd : forall i j k, l0 <= i <= h0 -> l1 <= j <= h1 -> l2 <= k <= h2 ->
             in_bounds (shape cc) (i, j, k)).
  { intros. rewrite Hs. simpl. lia. }
  assert (HlabL : label ∈ L).
  { apply HL. destruct p0 as [[a b] c].
    destruct (Hin a b c) as (? & ? & ?);
      [exact Hp0|simpl; apply Z.eqb_eq; exact Hlab|].
    exists a, b, c. split; [lia|symmetry; exact Hlab]. }
  destruct (np_unique L) as [|v0 rest] eqn:Hu.
  { apply elem_of_np_unique in HlabL. rewrite Hu in HlabL. inversion HlabL. }
  assert (Hother : other_non_bg_occurances cc box label
                   = Ok (other_occurrences cc box label)).
  { unfold other_non_bg_occurances, np_unique_counts. fold L.
    rewrite (other_count_list L label v0 rest Hu HlabL).
    f_equal. unfold other_occurrences. fold L. f_equal. f_equal.
    destruct (decide (0 ∈ L)) as [Hz|Hz].
    - assert (v0 = 0) as ->; [|reflexivity].
      assert (v0 <= 0).
      { apply (sorted_head_least v0 rest); [rewrite <- Hu; apply np_unique_sorted|].
        rewrite <- Hu. apply elem_of_np_unique. exact Hz. }
      assert (Hv0 : v0 ∈ L) by (apply elem_of_np_unique; rewrite Hu; left).
      apply HL in Hv0 as (i & j & k & (? & ? & ?) & ->).
      destruct (Hcc (i, j, k)) as [? _]; [apply Hbnd; assumption|]. lia.
    - assert (Hall : forall x, x ∈ L -> x = label).
      { intros x Hx. apply HL in Hx as (i & j & k & (? & ? & ?) & ->).
        apply HL in HlabL as (a & b & c & (? & ? & ?) & ->).
        apply (box_single_component cc l0 l1 l2 h0 h1 h2); try assumption.
        intros i' j' k' ? ? ?. split; [apply Hbnd; assumption|].
        intros Hzero. apply Hz. apply HL. exists i', j', k'.
        split; [lia|symmetry; exact Hzero]. }
      rewrite !filter_nil_all; [reflexivity| |].
      + intros x Hx. rewrite (Hall x Hx), Z.eqb_refl. apply andb_false_r.
      + intros x Hx. rewrite (Hall x Hx), Z.eqb_refl. apply andb_false_r. }
  assert (Hsize : size (getitem cc box) = total_voxels_in_box cc box).
  { unfold total_voxels_in_box. rewrite Hget. unfold flatten.
    rewrite length_fmap. unfold size, deref. cbn [shape extent].
    rewrite length_indices by lia. reflexivity. }
  exists box. unfold blob_crop. rewrite Ht, bind_Ok, Hother, bind_Ok.
  rewrite Hsize. fold (contamination cc box label).
  destruct (negb (Qle_bool (contamination cc box label)
                           (allowed_perc_other_blobs params))) eqn:Hrej.
  - exists None. split; [reflexivity|]. split; [reflexivity|].
    split; [intros _; apply Qgt_negb_le; exact Hrej|reflexivity].
  - rewrite Hmg, Hm, bind_Ok. eexists. split; [reflexivity|]. split; [reflexivity|].
    split; [discriminate|]. intros Hlt. apply Qgt_negb_le in Hlt. congruence.
Qed.

End OverlapFilter.

(** ** Zero margins *)

Lemma bind_Ok_inv {A B} (m : result A) (f : A -> result B) b :
  m ≫= f = Ok b -> exists a, m = Ok a /\ f a = Ok b.
Proof. destruct m as [a|e]; [eauto|discriminate]. Qed.

Lemma np_where_axes_nonneg image :
  let '(x0, x1, x2) := np_where image in
  (forall z, z ∈ x0 -> 0 <= z) /\ (forall z, z ∈ x1 -> 0 <= z)
  /\ (forall z, z ∈ x2 -> 0 <= z).
Proof.
  unfold np_where.
  assert (H : forall p, p ∈ np_where_idx image -> in_bounds (shape image) p)
    by (intros p Hp; apply elem_of_np_where_idx in Hp; tauto).
  destruct (shape image) as [[d h] w].
  repeat split; intros z Hz.
  - apply list_elem_of_fmap in Hz as (q & -> & Hz).
    apply list_elem_of_fmap in Hz as (p & -> & Hz).
    specialize (H p Hz). destruct p as [[i j] k]. simpl in *. lia.
  - apply list_elem_of_fmap in Hz as (q & -> & Hz).
    apply list_elem_of_fmap in Hz as (p & -> & Hz).
    specialize (H p Hz). destruct p as [[i j] k]. simpl in *. lia.
  - apply list_elem_of_fmap in Hz as (p & -> & Hz).
    specialize (H p Hz). destruct p as [[i j] k]. simpl in *. lia.
Qed.

Lemma zero_margin_axis x t :
  (forall z, z ∈ x -> 0 <= z) -> tight_range x = Ok t ->
  margin_range 0 x = Ok (Slice (start t) (stop t - 1)).
Proof.
  intros Hx. unfold tight_range, margin_range.
  destruct (amin x) as [lo|] eqn:Hlo; [|discriminate].
  destruct (amax x) as [hi|] eqn:Hhi; [|discriminate].
  rewrite !bind_Ok. intros [= <-]. simpl.
  apply amin_spec in Hlo as [Hlo _]. specialize (Hx lo Hlo).
  unfold mret, result_ret. f_equal. f_equal; lia.
Qed.

(** C2: with [slice_margins = (0, 0, 0)] the margined ranges of a blob keep
    the start of its tight ranges but stop one index earlier on every axis,
    so they are never the tight ranges. *)
Theorem zero_margins_cut_last_slice (image : ndarray bool) (t0 t1 t2 : slice) :
  tight_ranges (np_where image) = Ok (t0, t1, t2) ->
  margin_ranges (0, 0, 0) (np_where image)
  = Ok (Slice (start t0) (stop t0 - 1), Slice (start t1) (stop t1 - 1),
        Slice (start t2) (stop t2 - 1))
  /\ margin_ranges (0, 0, 0) (np_where image) <> Ok (t0, t1, t2).
Proof.
  intros Ht. pose proof (np_where_axes_nonneg image) as Hnn.
  destruct (np_where image) as [[x0 x1] x2]. destruct Hnn as (H0 & H1 & H2).
  unfold tight_ranges in Ht.
  apply bind_Ok_inv in Ht as (a0 & Ha0 & Ht).
  apply bind_Ok_inv in Ht as (a1 & Ha1 & Ht).
  apply bind_Ok_inv in Ht as (a2 & Ha2 & Ht). injection Ht as <- <- <-.
  assert (Hm : margin_ranges (0, 0, 0) (x0, x1, x2)
               = Ok (Slice (start a0) (stop a0 - 1), Slice (start a1) (stop a1 - 1),
                     Slice (start a2) (stop a2 - 1))).
  { unfold margin_ranges.
    rewrite (zero_margin_axis x0 a0), (zero_margin_axis x1 a1),
      (zero_margin_axis x2 a2) by assumption. reflexivity. }
  split; [exact Hm|]. rewrite Hm. intros [= H _ _].
  destruct a0 as [s e]. simpl in H. injection H. lia.
Qed.

(** ** Views and the loop over the blobs *)

Lemma in_viewb_shift v p : in_bounds (extent v) p -> in_viewb v (shift (offset v) p) = true.
Proof.
  destruct v as [[[o0 o1] o2] e], p as [[i j] k]. unfold in_viewb. simpl.
  intros H. apply in_boundsb_spec.
  replace (o0 + i - o0) with i by lia. replace (o1 + j - o1) with j by lia.
  replace (o2 + k - o2) with k by lia. exact H.
Qed.

Lemma adjust_range n i : 0 <= n -> 0 <= adjust n i <= n.
Proof. intros H. unfold adjust. destruct (Z.ltb_spec i 0); lia. Qed.

Lemma basic_index_in_bounds s r p :
  valid_shape s -> in_bounds (extent (basic_index s r)) p ->
  in_bounds s (shift (offset (basic_index s r)) p).
Proof.
  destruct s as [[d h] w], r as [[r0 r1] r2], p as [[i j] k].
  unfold valid_shape, basic_index, slice_start, slice_len. simpl.
  intros (Hd & Hh & Hw).
  pose proof (adjust_range d (start r0) Hd). pose proof (adjust_range d (stop r0) Hd).
  pose proof (adjust_range h (start r1) Hh). pose proof (adjust_range h (stop r1) Hh).
  pose proof (adjust_range w (start r2) Hw). pose proof (adjust_range w (stop r2) Hw).
  lia.
Qed.

Lemma whole_in_bounds s p : in_bounds (extent (whole s)) p -> in_bounds s (shift (offset (whole s)) p).
Proof. destruct s as [[d h] w], p as [[i j] k]. simpl. lia. Qed.

(** What every crop of the cropper looks like. *)
Lemma crops_loop_crops image_volume labels_volume cc params blobs crops c :
  crops_loop image_volume labels_volume cc params blobs = Ok crops ->
  c ∈ crops ->
  exists r, c = (basic_index (shape image_volume) r,
                 basic_index (shape labels_volume) r, location_string_of r).
Proof.
  revert crops. induction blobs as [|[label image] blobs IH]; intros crops; simpl.
  - intros [= <-] H. inversion H.
  - intros H. apply bind_Ok_inv in H as (o & Ho & H).
    apply bind_Ok_inv in H as (crops' & Hc & H). injection H as <-.
    intros Hin. destruct o as [c'|]; [|eauto].
    apply elem_of_cons in Hin as [->|Hin]; [|eauto].
    unfold blob_crop in Ho.
    apply bind_Ok_inv in Ho as (t & _ & Ho).
    apply bind_Ok_inv in Ho as (other & _ & Ho).
    destruct (negb _); [discriminate|].
    apply bind_Ok_inv in Ho as (r & _ & Ho). injection Ho as <-. eauto.
Qed.

Section DatasetFacts.

Variable connected_components : ndarray bool -> ndarray Z.
Variable zoom : ndarray Z -> Q * Q * Q -> Z -> ndarray Z.
Variable num_str : Q -> string.
Variable cfg : dataset_config.

Lemma process_blob_inv f ct seg idx ctv segv loc seg' o :
  process_blob zoom num_str cfg f ct seg idx (ctv, segv, loc) = Ok (seg', o) ->
  seg' = remove_liver cfg seg segv
  /\ exists ct_array seg_array,
       resample zoom cfg (ct_spacing f) (deref ct ctv) (deref seg' segv)
       = Ok (ct_array, seg_array)
       /\ o = if too_small (shape ct_array) (min_sizes cfg) then None
              else Some (Saved (crop_path num_str cfg (ct_filename f) loc idx) ct_array
                               (str_replace "volume" "segmentation"
                                  (crop_path num_str cfg (ct_filename f) loc idx))
                               seg_array).
Proof.
  unfold process_blob. intros H.
  apply bind_Ok_inv in H as ([ct_array seg_array] & Hr & H).
  destruct (too_small _ _) eqn:Hsmall; injection H as <- <-.
  - split; [reflexivity|]. exists ct_array, seg_array. rewrite Hsmall. auto.
  - split; [reflexivity|]. exists ct_array, seg_array. rewrite Hsmall. auto.
Qed.

(** Every save of the loop comes from one of the blobs, processed on a
    label buffer that [I], an invariant of the loop body, holds of. *)
Lemma save_blobs_log (I : ndarray Z -> Prop) f ct :
  (forall seg idx c seg' o, I seg ->
     process_blob zoom num_str cfg f ct seg idx c = Ok (seg', o) -> I seg') ->
  forall blobs seg idx s, I seg ->
    s ∈ (save_blobs zoom num_str cfg f ct seg idx blobs).1 ->
    exists n c seg_n seg',
      blobs !! n = Some c /\ I seg_n
      /\ process_blob zoom num_str cfg f ct seg_n (idx + Z.of_nat n) c = Ok (seg', Some s).
Proof.
  intros Hstep. induction blobs as [|c blobs IH]; intros seg idx s HI; simpl.
  - intros H. inversion H.
  - destruct (process_blob zoom num_str cfg f ct seg idx c) as [[seg' o]|e] eqn:Hp;
      [|intros H; inversion H].
    destruct (save_blobs zoom num_str cfg f ct seg' (idx + 1) blobs) as [log r] eqn:Hl.
    simpl. intros Hin.
    assert (Hrest : s ∈ log -> exists n c0 seg_n seg'0,
              (c :: blobs) !! n = Some c0 /\ I seg_n
              /\ process_blob zoom num_str cfg f ct seg_n (idx + Z.of_nat n) c0
                 = Ok (seg'0, Some s)).
    { intros Hs. destruct (IH seg' (idx + 1) s) as (n & c0 & seg_n & seg'0 & Hn & HIn & Hpn).
      - eapply Hstep; eassumption.
      - rewrite Hl. exact Hs.
      - exists (S n), c0, seg_n, seg'0. split; [exact Hn|]. split; [exact HIn|].
        replace (idx + Z.of_nat (S n)) with (idx + 1 + Z.of_nat n) by lia. exact Hpn. }
    destruct o as [s0|]; [|auto].
    apply elem_of_cons in Hin as [->|Hin]; [|auto].
    exists 0%nat, c, seg, seg'. split; [reflexivity|]. split; [exact HI|].
    rewrite Z.add_0_r. exact Hp.
Qed.

Lemma process_pair_log f s :
  s ∈ (process_pair connected_components zoom num_str cfg f).1 ->
  shape (seg_image f) = shape (ct_image f)
  /\ exists blobs,
       all_blobs_of connected_components cfg
         (np_clip (ct_image f) IMG_MIN_VAL IMG_MAX_VAL) (seg_image f) = Ok blobs
       /\ s ∈ (save_blobs zoom num_str cfg f
                 (np_clip (ct_image f) IMG_MIN_VAL IMG_MAX_VAL) (seg_image f) 0 blobs).1.
Proof.
  unfold process_pair. case_bool_decide as Hs; [|intros H; inversion H].
  destruct (all_blobs_of _ _ _ _) as [blobs|e]; [|intros H; inversion H].
  intros H. split; [exact Hs|]. eauto.
Qed.

(** The crops of a file: cut by the cropper with one set of ranges for
    both arrays, or the two whole arrays. *)
Lemma all_blobs_of_crops ct_array seg_array blobs c :
  all_blobs_of connected_components cfg ct_array seg_array = Ok blobs ->
  c ∈ blobs ->
  (exists r, c = (basic_index (shape ct_array) r, basic_index (shape seg_array) r,
                  location_string_of r))
  \/ c = (whole (shape ct_array), whole (shape seg_array), EmptyString).
Proof.
  unfold all_blobs_of. destruct (crop_params cfg) as [p|].
  - unfold crop_to_boxes_of_interset_cc. intros H Hin. left.
    eapply crops_loop_crops; eassumption.
  - intros [= <-] Hin. apply list_elem_of_singleton in Hin. right. exact Hin.
Qed.

End DatasetFacts.

(** ** The size gate *)

Lemma too_small_spec s m : too_small s m = true <-> ~ shape_ge s m.
Proof.
  destruct s as [[d h] w], m as [[m0 m1] m2]. unfold too_small, shape_ge.
  rewrite !orb_true_iff, !Z.ltb_lt. lia.
Qed.

Lemma too_small_false s m : too_small s m = false <-> shape_ge s m.
Proof.
  destruct s as [[d h] w], m as [[m0 m1] m2]. unfold too_small, shape_ge.
  rewrite !orb_false_iff, !Z.ltb_ge. lia.
Qed.

Section DatasetTheorems.

Variable connected_components : ndarray bool -> ndarray Z.
Variable zoom : ndarray Z -> Q * Q * Q -> Z -> ndarray Z.
Variable num_str : Q -> string.
Variable cfg : dataset_config.

Lemma resample_shapes spacing a b a' b' :
  (forall x y dims o o', shape x = shape y ->
     shape (zoom x dims o) = shape (zoom y dims o')) ->
  shape a = shape b ->
  resample zoom cfg spacing a b = Ok (a', b') -> shape a' = shape b'.
Proof.
  intros Hz Hs. unfold resample.
  destruct (negb _ || negb _).
  - destruct (Qeq_bool _ 0); [discriminate|]. intros [= <- <-]. apply Hz, Hs.
  - intros [= <- <-]. exact Hs.
Qed.

Lemma crop_views_agree ct_array seg_array blobs ctv segv loc :
  shape seg_array = shape ct_array ->
  all_blobs_of connected_components cfg ct_array seg_array = Ok blobs ->
  (ctv, segv, loc) ∈ blobs -> ctv = segv.
Proof.
  intros Hs Hb Hin.
  destruct (all_blobs_of_crops _ _ _ _ _ _ Hb Hin) as [[r [= -> -> _]]|[= -> -> _]];
    rewrite Hs; reflexivity.
Qed.

(** C7: every crop that is saved has a CT array and a label array of the
    same shape, with every axis at least the entry of [min_sizes]; a crop
    whose resampled CT array is shorter than [min_sizes] on some axis is
    dropped without an exception and nothing is saved for it. *)
Theorem persisted_crops_pass_size_gate :
  (forall x y dims o o', shape x = shape y ->
     shape (zoom x dims o) = shape (zoom y dims o')) ->
  (forall f s, s ∈ (process_pair connected_components zoom num_str cfg f).1 ->
     shape (ct_npy s) = shape (seg_npy s)
     /\ shape_ge (shape (ct_npy s)) (min_sizes cfg))
  /\ (forall f ct seg idx ctv segv loc ct_array seg_array,
        resample zoom cfg (ct_spacing f) (deref ct ctv)
                 (deref (remove_liver cfg seg segv) segv) = Ok (ct_array, seg_array) ->
        exists o,
          process_blob zoom num_str cfg f ct seg idx (ctv, segv, loc)
          = Ok (remove_liver cfg seg segv, o)
          /\ (o = None <-> ~ shape_ge (shape ct_array) (min_sizes cfg))).
Proof.
  intros Hz. split.
  - intros f s Hs. apply process_pair_log in Hs as (Hshape & blobs & Hb & Hs).
    destruct (save_blobs_log zoom num_str cfg (fun _ => True) f _
                (fun _ _ _ _ _ _ _ => I) _ _ _ s I Hs)
      as (n & [[ctv segv] loc] & seg_n & seg' & Hn & _ & Hp).
    apply list_elem_of_lookup_2 in Hn.
    assert (ctv = segv) as -> by exact (crop_views_agree (np_clip (ct_image f) IMG_MIN_VAL IMG_MAX_VAL)
                  (seg_image f) blobs _ _ loc Hshape Hb Hn).
    apply process_blob_inv in Hp as (-> & ct_array & seg_array & Hr & Ho).
    destruct (too_small _ _) eqn:Hsmall; [discriminate|]. injection Ho as ->. simpl.
    split; [|apply too_small_false; exact Hsmall].
    eapply resample_shapes; [exact Hz| |exact Hr]. reflexivity.
  - intros f ct seg idx ctv segv loc ct_array seg_array Hr.
    unfold process_blob. rewrite Hr, bind_Ok.
    destruct (too_small _ _) eqn:Hsmall; eexists; (split; [reflexivity|]).
    + split; [intros _; apply too_small_spec; exact Hsmall|reflexivity].
    + split; [discriminate|]. intros H. apply too_small_spec in H. congruence.
Qed.

(** ** The label remap *)

Lemma remove_liver_item seg segv q :
  truthy (remove_liver_label cfg) = true ->
  item (remove_liver cfg seg segv) q
  = if in_viewb segv q
    then (if item seg q =? 1 then 0 else if item seg q =? 2 then 1 else item seg q)
    else item seg q.
Proof.
  intros Ht. unfold remove_liver, setitem_where. rewrite Ht. cbn [item].
  destruct (in_viewb segv q); cbn [andb]; [|reflexivity].
  destruct (item seg q =? 1); reflexivity.
Qed.

Lemma remove_liver_remapped seg0 seg segv :
  truthy (remove_liver_label cfg) = true ->
  (forall q, remapped (item seg0 q) (item seg q)) ->
  forall q, remapped (item seg0 q) (item (remove_liver cfg seg segv) q).
Proof.
  intros Ht H q. rewrite remove_liver_item by assumption. specialize (H q).
  unfold remapped in *.
  destruct (in_viewb segv q); [|exact H].
  destruct (Z.eqb_spec (item seg q) 1); [lia|].
  destruct (Z.eqb_spec (item seg q) 2); lia.
Qed.

(** What holds of every saved label array with [remove_liver_label] set: it
    comes from one of the crops of the file, each of its voxels that equals 1
    has a source voxel that was 2, and no source voxel that was 1 is saved
    as 1; the crops of one file share the label buffer they are remapped
    in. *)
Theorem remove_liver_label_remaps_saved_labels
    (origin : idx -> Q * Q * Q -> idx -> idx) (f : source_pair) (s : saved) :
  truthy (remove_liver_label cfg) = true ->
  valid_shape (shape (seg_image f)) ->
  (forall a dims p, in_bounds (shape (zoom a dims 0)) p ->
     in_bounds (shape a) (origin (shape a) dims p)
     /\ item (zoom a dims 0) p = item a (origin (shape a) dims p)) ->
  s ∈ (process_pair connected_components zoom num_str cfg f).1 ->
  exists blobs n ctv segv loc,
    all_blobs_of connected_components cfg
      (np_clip (ct_image f) IMG_MIN_VAL IMG_MAX_VAL) (seg_image f) = Ok blobs
    /\ blobs !! n = Some (ctv, segv, loc)
    /\ ct_path s = crop_path num_str cfg (ct_filename f) loc (Z.of_nat n)
    /\ labels_remapped cfg origin f segv s.
Proof.
  intros Ht Hvalid Hzoom Hs. unfold labels_remapped.
  apply process_pair_log in Hs as (Hshape & blobs & Hb & Hs).
  apply (save_blobs_log zoom num_str cfg
           (fun seg => forall q, remapped (item (seg_image f) q) (item seg q))) in Hs
    as (n & [[ctv segv] loc] & seg_n & seg' & Hn & HI & Hp).
  2:{ intros seg idx [[ctv segv] loc] seg' o HI Hp.
      apply process_blob_inv in Hp as (-> & _).
      apply remove_liver_remapped; assumption. }
  2:{ intros q. left. reflexivity. }
  exists blobs, n, ctv, segv, loc. split; [exact Hb|]. split; [exact Hn|].
  apply process_blob_inv in Hp as (-> & ct_array & seg_array & Hr & Ho).
  destruct (too_small _ _); [discriminate|]. injection Ho as ->. simpl.
  rewrite Z.add_0_l. split; [reflexivity|].
  assert (Hview : forall p', in_bounds (extent segv) p' ->
            in_bounds (shape (seg_image f)) (shift (offset segv) p')).
  { intros p' Hp'. apply list_elem_of_lookup_2 in Hn.
    destruct (all_blobs_of_crops _ _ _ _ _ _ Hb Hn) as [[r [= _ -> _]]|[= _ -> _]].
    - apply basic_index_in_bounds; assumption.
    - apply whole_in_bounds; assumption. }
  assert (Hvox : forall p', in_bounds (extent segv) p' ->
            let q := shift (offset segv) p' in
            let out := item (deref (remove_liver cfg seg_n segv) segv) p' in
            in_bounds (shape (seg_image f)) q
            /\ (out = 1 -> item (seg_image f) q = 2)
            /\ (item (seg_image f) q = 1 -> out <> 1)).
  { intros p' Hp'. simpl. split; [apply Hview; exact Hp'|].
    rewrite remove_liver_item, in_viewb_shift by assumption.
    specialize (HI (shift (offset segv) p')). unfold remapped in HI.
    destruct (Z.eqb_spec (item seg_n (shift (offset segv) p')) 1); [lia|].
    destruct (Z.eqb_spec (item seg_n (shift (offset segv) p')) 2); lia. }
  intros p Hp. unfold source_voxel. unfold resample in Hr.
  destruct (negb _ || negb _).
  - destruct (Qeq_bool _ 0); [discriminate|]. injection Hr as <- <-.
    destruct (Hzoom _ _ _ Hp) as [Hin ->]. apply Hvox. exact Hin.
  - injection Hr as <- <-. apply Hvox. exact Hp.
Qed.

(** ** The shape check *)

(** C9: a pair whose label array and CT array differ in shape yields no
    save and an [AssertionError], and the run over a listing stops at that
    pair: nothing after it is processed. *)
Theorem shape_mismatch_halts_batch (f : source_pair) (before after : list source_pair) :
  shape (seg_image f) <> shape (ct_image f) ->
  process_pair connected_components zoom num_str cfg f = ([], Raise AssertionError)
  /\ create_dataset connected_components zoom num_str cfg (before ++ f :: after)
     = (let '(log, r) := create_dataset connected_components zoom num_str cfg before in
        (log, match r with Ok _ => Raise AssertionError | Raise e => Raise e end)).
Proof.
  intros Hne.
  assert (Hf : process_pair connected_components zoom num_str cfg f
               = ([], Raise AssertionError)).
  { unfold process_pair. rewrite bool_decide_eq_false_2 by exact Hne. reflexivity. }
  split; [exact Hf|].
  induction before as [|g before IH]; simpl.
  - rewrite Hf. reflexivity.
  - destruct (process_pair connected_components zoom num_str cfg g) as [log [[]|e]];
      [|reflexivity].
    rewrite IH.
    destruct (create_dataset connected_components zoom num_str cfg before) as [log' r].
    reflexivity.
Qed.

End DatasetTheorems.

(** ** Occurrences of a substring *)

Lemma lacks_app c a b : lacks c (a +:+ b) = lacks c a && lacks c b.
Proof.
  induction a as [|x a IH]; simpl; [reflexivity|].
  rewrite IH, andb_assoc. reflexivity.
Qed.

Lemma prefix_lacks c old s :
  lacks c s = true -> String.prefix old s = true -> lacks c old = true.
Proof.
  revert s. induction old as [|o old IH]; intros s Hs; [reflexivity|].
  destruct s as [|x s]; [discriminate|]. simpl.
  simpl in Hs. apply andb_true_iff in Hs as [Hx Hs].
  destruct (ascii_dec o x) as [->|]; [|discriminate].
  intros Hp. rewrite Hx. simpl. eapply IH; eassumption.
Qed.

(** A string without one of the characters of [old] does not hold [old]. *)
Lemma occurs_lacks c old s :
  lacks c old = false -> lacks c s = true -> occurs old s = false.
Proof.
  intros Ho.
  assert (Hp : forall t, lacks c t = true -> String.prefix old t = false).
  { intros t Ht. destruct (String.prefix old t) eqn:E; [|reflexivity].
    apply (prefix_lacks c) in E; [congruence|exact Ht]. }
  induction s as [|x s IH]; intros Hs; cbn [occurs]; rewrite (Hp _ Hs).
  - reflexivity.
  - simpl in Hs. apply andb_true_iff in Hs as [_ Hs]. simpl. auto.
Qed.

Lemma prefix_sep c old a b :
  lacks c old = true ->
  String.prefix old (a +:+ String c b) = String.prefix old a.
Proof.
  revert a. induction old as [|o old IH]; intros a Ho; [destruct a; reflexivity|].
  simpl in Ho. apply andb_true_iff in Ho as [Hoc Ho].
  apply negb_true_iff, Ascii.eqb_neq in Hoc.
  destruct a as [|x a]; simpl.
  - destruct (ascii_dec o c); [congruence|reflexivity].
  - destruct (ascii_dec o x); [|reflexivity]. apply IH. exact Ho.
Qed.

(** Across a character that [old] does not have, [old] occurs on one side
    or on the other. *)
Lemma occurs_sep c old a b :
  lacks c old = true ->
  occurs old (a +:+ String c b) = occurs old a || occurs old b.
Proof.
  intros Ho. induction a as [|x a IH].
  - pose proof (prefix_sep c old EmptyString b Ho) as H.
    change (EmptyString +:+ String c b) with (String c b) in *.
    cbn [occurs]. rewrite H.
    destruct (String.prefix old EmptyString); reflexivity.
  - change (String x a +:+ String c b) with (String x (a +:+ String c b)).
    cbn [occurs].
    change (String x (a +:+ String c b)) with (String x a +:+ String c b).
    rewrite prefix_sep, IH by assumption.
    rewrite orb_assoc. reflexivity.
Qed.

Lemma replace_absent old new s :
  occurs old s = false -> str_replace old new s = s.
Proof.
  unfold str_replace. induction s as [|x s IH]; [reflexivity|].
  cbn [occurs replace_go]. intros H. apply orb_false_iff in H as [Hp Ho].
  rewrite Hp, IH by assumption. reflexivity.
Qed.

Lemma ends_with_inv c a :
  ends_with c a = true -> exists a', a = a' +:+ String c EmptyString.
Proof.
  unfold ends_with, char_is. induction a as [|x a IH]; [discriminate|].
  destruct a as [|y a].
  - simpl. intros H. apply Ascii.eqb_eq in H as ->. exists EmptyString. reflexivity.
  - intros H. destruct IH as [a' Ha'].
    + revert H. cbn [String.length].
      replace (Z.to_nat (Z.of_nat (S (S (String.length a))) - 1))
        with (S (Z.to_nat (Z.of_nat (S (String.length a)) - 1))) by lia.
      simpl. auto.
    + exists (String x a'). rewrite Ha'. reflexivity.
Qed.

Lemma append_snoc a c b : (a +:+ String c EmptyString) +:+ b = a +:+ String c b.
Proof.
  induction a as [|x a IH]; [reflexivity|].
  change (String x ((a +:+ String c EmptyString) +:+ b) = String x (a +:+ String c b)).
  rewrite IH. reflexivity.
Qed.

Lemma occurs_path_join old a b :
  lacks "/" old = true ->
  occurs old a = false -> occurs old b = false -> occurs old (path_join a b) = false.
Proof.
  intros Ho Ha Hb. unfold path_join.
  destruct (starts_with "/" b); [exact Hb|].
  destruct (String.length a =? 0)%nat eqn:Hl.
  - apply Nat.eqb_eq in Hl. destruct a; [exact Hb|discriminate].
  - simpl. destruct (ends_with "/" a) eqn:He.
    + apply ends_with_inv in He as [a' ->].
      rewrite append_snoc.
      rewrite occurs_sep in Ha |- * by assumption.
      apply orb_false_iff in Ha as [Ha _]. rewrite Ha, Hb. reflexivity.
    + change (a +:+ "/" +:+ b) with (a +:+ String "/" b).
      rewrite occurs_sep, Ha, Hb by assumption. reflexivity.
Qed.

(** ** What the rendered numbers are made of *)

Lemma pretty_N_char_not_o n : Ascii.eqb (pretty_N_char n) "o" = false.
Proof.
  destruct n as [|p]; [reflexivity|].
  do 4 (try destruct p as [p|p|]); reflexivity.
Qed.

Lemma pretty_N_go_lacks_o x s : lacks "o" (pretty_N_go x s) = lacks "o" s.
Proof.
  revert s. induction (N.lt_wf_0 x) as [x _ IH]; intros s.
  destruct (decide (x = 0)%N) as [->|Hx]; [reflexivity|].
  rewrite pretty_N_go_step by lia.
  rewrite IH by (apply N.div_lt; lia).
  cbn [lacks]. rewrite pretty_N_char_not_o. reflexivity.
Qed.

Lemma pretty_N_lacks_o (x : N) : lacks "o" (pretty x) = true.
Proof.
  unfold pretty, pretty_N. destruct (decide (x = 0)%N); [reflexivity|].
  apply pretty_N_go_lacks_o.
Qed.

Lemma pretty_Z_lacks_o (z : Z) : lacks "o" (pretty z) = true.
Proof.
  destruct z as [|p|p]; [reflexivity| |].
  - apply (pretty_N_lacks_o (N.pos p)).
  - change (pretty (Z.neg p)) with ("-" +:+ pretty (N.pos p)).
    rewrite lacks_app, pretty_N_lacks_o. reflexivity.
Qed.

Lemma str_tuple_lacks_o t : lacks "o" (str_tuple t) = true.
Proof.
  destruct t as [[a b] c]. unfold str_tuple.
  rewrite !lacks_app, !pretty_Z_lacks_o. reflexivity.
Qed.

Lemma location_string_lacks_o r : lacks "o" (location_string_of r) = true.
Proof.
  destruct r as [[r0 r1] r2]. unfold location_string_of, str_join.
  rewrite !lacks_app, !pretty_Z_lacks_o. reflexivity.
Qed.

Lemma decimal_str_lacks_o q : lacks "o" (decimal_str q) = true.
Proof.
  assert (Hf : forall fuel r den, lacks "o" (frac_digits fuel r den) = true).
  { induction fuel as [|fuel IH]; intros r den; [reflexivity|]. simpl.
    destruct (r =? 0); [reflexivity|].
    rewrite lacks_app, pretty_Z_lacks_o, IH. reflexivity. }
  unfold decimal_str. destruct (Z.pos (Qden q) =? 1); [apply pretty_Z_lacks_o|].
  rewrite !lacks_app, pretty_Z_lacks_o, Hf. destruct (Qnum q <? 0); reflexivity.
Qed.

Section Paths.

Variable connected_components : ndarray bool -> ndarray Z.
Variable zoom : ndarray Z -> Q * Q * Q -> Z -> ndarray Z.
Variable num_str : Q -> string.
Variable cfg : dataset_config.

Hypothesis num_str_lacks_o : forall q, lacks "o" (num_str q) = true.

Lemma processed_dir_lacks_o : lacks "o" (processed_dir num_str cfg) = true.
Proof.
  unfold processed_dir, str_crop_params, str_bool.
  destruct (remove_liver_label cfg) as [[]|], (crop_params cfg) as [p|];
    rewrite ?lacks_app, ?num_str_lacks_o, ?str_tuple_lacks_o, ?pretty_Z_lacks_o;
    reflexivity.
Qed.

Lemma new_ct_dir_without_volume : occurs "volume" (new_ct_dir num_str cfg) = false.
Proof.
  unfold new_ct_dir. apply occurs_path_join; [reflexivity| |reflexivity].
  apply (occurs_lacks "o"); [reflexivity|apply processed_dir_lacks_o].
Qed.

Lemma crop_path_without_volume filename loc idx :
  occurs "volume" (splitext_root filename) = false ->
  lacks "o" loc = true ->
  occurs "volume" (crop_path num_str cfg filename loc idx) = false.
Proof.
  intros Hbase Hloc. unfold crop_path.
  apply occurs_path_join; [reflexivity|apply new_ct_dir_without_volume|].
  unfold crop_fname. destruct (0 <? String.length loc)%nat.
  - change (splitext_root filename +:+ "-(" +:+ loc +:+ ").npy")
      with (splitext_root filename +:+ String "-" ("(" +:+ loc +:+ ").npy")).
    rewrite occurs_sep, Hbase by reflexivity.
    apply (occurs_lacks "o"); [reflexivity|].
    rewrite !lacks_app, Hloc. reflexivity.
  - change (splitext_root filename +:+ "-" +:+ pretty idx +:+ ".npy")
      with (splitext_root filename +:+ String "-" (pretty idx +:+ ".npy")).
    rewrite occurs_sep, Hbase by reflexivity.
    apply (occurs_lacks "o"); [reflexivity|].
    rewrite !lacks_app, pretty_Z_lacks_o. reflexivity.
Qed.

(** C10: the label path is the CT path with ["volume"] replaced by
    ["segmentation"]; when the base name of the CT file does not hold
    ["volume"] the two paths are equal and, after the two saves, the path
    holds the label array. *)
Theorem label_save_overwrites_ct_crop (f : source_pair) (s : saved) :
  s ∈ (process_pair connected_components zoom num_str cfg f).1 ->
  seg_path s = str_replace "volume" "segmentation" (ct_path s)
  /\ (occurs "volume" (splitext_root (ct_filename f)) = false ->
      seg_path s = ct_path s
      /\ forall fs, persist fs s !! ct_path s = Some (seg_npy s)).
Proof.
  intros Hs. apply process_pair_log in Hs as (Hshape & blobs & Hb & Hs).
  destruct (save_blobs_log zoom num_str cfg (fun _ => True) f _
              (fun _ _ _ _ _ _ _ => I) _ _ _ s I Hs)
    as (n & [[ctv segv] loc] & seg_n & seg' & Hn & _ & Hp).
  apply list_elem_of_lookup_2 in Hn.
  apply process_blob_inv in Hp as (-> & ct_array & seg_array & Hr & Ho).
  destruct (too_small _ _); [discriminate|]. injection Ho as ->. cbn [seg_path ct_path seg_npy].
  split; [reflexivity|]. intros Hbase.
  assert (Hloc : lacks "o" loc = true).
  { destruct (all_blobs_of_crops _ _ _ _ _ _ Hb Hn) as [[r [= _ _ ->]]|[= _ _ ->]];
      [apply location_string_lacks_o|reflexivity]. }
  rewrite replace_absent by (apply crop_path_without_volume; assumption).
  split; [reflexivity|]. intros fs. unfold persist, np_save.
  cbn [seg_path ct_path seg_npy ct_npy]. apply lookup_insert_eq.
Qed.

End Paths.

(** ** The reference instances and the examples *)

Lemma nearest_zoom_shape x y dims o o' :
  shape x = shape y -> shape (nearest_zoom x dims o) = shape (nearest_zoom y dims o').
Proof.
  unfold nearest_zoom. intros ->. destruct (shape y) as [[d h] w], dims as [[z0 z1] z2].
  reflexivity.
Qed.

Lemma zoom_axis_src_range n z i :
  0 <= i < zoom_axis_len n z -> 0 <= zoom_axis_src n z i < n.
Proof.
  unfold zoom_axis_len, zoom_axis_src. destruct (Z.leb_spec n 0); lia.
Qed.

Lemma nearest_zoom_sound a dims p :
  in_bounds (shape (nearest_zoom a dims 0)) p ->
  in_bounds (shape a) (nearest_origin (shape a) dims p)
  /\ item (nearest_zoom a dims 0) p = item a (nearest_origin (shape a) dims p).
Proof.
  unfold nearest_zoom. destruct (shape a) as [[d h] w] eqn:Hs, dims as [[z0 z1] z2].
  destruct p as [[i j] k]. cbn [shape item]. intros (Hi & Hj & Hk).
  split; [|reflexivity]. simpl.
  apply zoom_axis_src_range in Hi, Hj, Hk. lia.
Qed.

Lemma zero_margins_witness :
  tight_ranges (np_where (eq_scalar single_voxel_labels 1))
  = Ok (Slice 1 2, Slice 1 2, Slice 1 2)
  /\ margin_ranges (0, 0, 0) (np_where (eq_scalar single_voxel_labels 1))
     = Ok (Slice 1 1, Slice 1 1, Slice 1 1)
  /\ margin_ranges (0, 0, 0) (np_where (eq_scalar single_voxel_labels 1))
     <> Ok (Slice 1 2, Slice 1 2, Slice 1 2).
Proof.
  split; [vm_compute; reflexivity|].
  apply (zero_margins_cut_last_slice (eq_scalar single_voxel_labels 1)
           (Slice 1 2) (Slice 1 2) (Slice 1 2)).
  vm_compute. reflexivity.
Defined.

Lemma overlap_filter_witness :
  let cc := cc3d_connected_components (eq_scalar ring_labels 1) in
  component_labelling cc
  /\ (1, eq_scalar cc 1) ∈ cc3d_each cc
  /\ exists box o,
       tight_ranges (np_where (eq_scalar cc 1)) = Ok box
       /\ blob_crop ring_labels ring_labels cc ring_params 1 (eq_scalar cc 1) = Ok o
       /\ (o = None <-> (allowed_perc_other_blobs ring_params < contamination cc box 1)%Q).
Proof.
  intros cc.
  assert (Hcc : component_labelling cc)
    by apply reference_labelling_is_component_labelling.
  assert (Hin : (1, eq_scalar cc 1) ∈ cc3d_each cc).
  { unfold cc3d_each. apply (list_elem_of_fmap_2' _ _ 1); [|reflexivity].
    replace (List.filter (fun l => negb (l =? 0)) (np_unique (flatten cc)))
      with [1; 2] by (vm_compute; reflexivity).
    left. }
  split; [exact Hcc|]. split; [exact Hin|].
  exact (overlap_filter_rejects_iff_contaminated cc3d_connected_components
           ring_labels ring_labels ring_params 1 (eq_scalar cc 1) Hcc Hin).
Defined.

Lemma remove_liver_label_witness :
  exists s,
    s ∈ (process_pair cc3d_connected_components nearest_zoom decimal_str
           liver_config liver_pair).1
    /\ exists blobs n ctv segv loc,
         all_blobs_of cc3d_connected_components liver_config
           (np_clip (ct_image liver_pair) IMG_MIN_VAL IMG_MAX_VAL)
           (seg_image liver_pair) = Ok blobs
         /\ blobs !! n = Some (ctv, segv, loc)
         /\ ct_path s = crop_path decimal_str liver_config (ct_filename liver_pair)
                          loc (Z.of_nat n)
         /\ labels_remapped liver_config nearest_origin liver_pair segv s.
Proof.
  assert (Hlen : length (process_pair cc3d_connected_components nearest_zoom
                            decimal_str liver_config liver_pair).1 = 2%nat)
    by (vm_compute; reflexivity).
  destruct (process_pair cc3d_connected_components nearest_zoom decimal_str
              liver_config liver_pair).1 as [|s l] eqn:E; [discriminate|].
  exists s. split; [left|].
  apply (remove_liver_label_remaps_saved_labels cc3d_connected_components
           nearest_zoom decimal_str liver_config nearest_origin liver_pair s).
  - reflexivity.
  - vm_compute. repeat split; discriminate.
  - intros a dims p. apply nearest_zoom_sound.
  - rewrite E. left.
Defined.

Lemma crops_loop_mask_dilation image_volume labels_volume cc params md blobs :
  crops_loop image_volume labels_volume cc (with_mask_dilation params md) blobs
  = crops_loop image_volume labels_volume cc params blobs.
Proof.
  induction blobs as [|[label image] blobs IH]; [reflexivity|].
  cbn [crops_loop]. rewrite IH. reflexivity.
Qed.

(** The crops of one file are views of one label buffer, so the voxels two
    crops share are remapped twice: the first crop saves the tumour voxels as
    1, the later crops find them as 1 and save them as 0, their own tumour
    voxel included once an earlier crop has covered it. *)
Lemma overlapping_crops_are_remapped_twice :
  (fun s => flatten (seg_npy s))
    <$> (process_pair cc3d_connected_components nearest_zoom decimal_str
           crowded_config crowded_pair).1
  = [[0; 0; 1; 0; 1]; [0; 0; 0; 0; 0; 1]; [0; 0; 0; 0; 0; 0]].
Proof. vm_compute. reflexivity. Qed.

(** C6: on a row with three tumour voxels whose crops overlap, label 2 is
    not renamed to 1 throughout.  The three crops hold the source labels
    [1 1 2 1 2], [1 2 1 2 1 2] and [1 2 1 2 1 1]; the first is saved as
    [0 0 1 0 1], as the remap has it, the second as [0 0 0 0 0 1] and the
    third as [0 0 0 0 0 0]: a tumour voxel that an earlier crop covers is
    saved as background. *)
Theorem overlapping_crops_lose_tumour_label :
  exists blobs,
    all_blobs_of cc3d_connected_components crowded_config
      (np_clip (ct_image crowded_pair) IMG_MIN_VAL IMG_MAX_VAL) (seg_image crowded_pair)
    = Ok blobs
    /\ (fun c : crop => flatten (deref (seg_image crowded_pair) c.1.2)) <$> blobs
       = [[1; 1; 2; 1; 2]; [1; 2; 1; 2; 1; 2]; [1; 2; 1; 2; 1; 1]]
    /\ (fun s => flatten (seg_npy s))
         <$> (process_pair cc3d_connected_components nearest_zoom decimal_str
                crowded_config crowded_pair).1
       = [[0; 0; 1; 0; 1]; [0; 0; 0; 0; 0; 1]; [0; 0; 0; 0; 0; 0]].
Proof.
  eexists. split; [vm_compute; reflexivity|]. split; vm_compute; reflexivity.
Qed.

(** C3: the crops do not depend on [mask_dilation]; on two voxels one gap
    apart, one round of dilation changes the mask and labeling the dilated
    mask finds one component, while the cropper still returns two crops. *)
Theorem mask_dilation_is_discarded :
  (forall connected_components image_volume labels_volume params md,
     crop_to_boxes_of_interset_cc connected_components image_volume labels_volume
       (with_mask_dilation params md)
     = crop_to_boxes_of_interset_cc connected_components image_volume labels_volume params)
  /\ binary_dilation (eq_scalar gap_labels 1) 1 <> eq_scalar gap_labels 1
  /\ (cc3d_each (cc3d_connected_components
                   (binary_dilation (eq_scalar gap_labels 1) 1))).*1 = [1]
  /\ crop_to_boxes_of_interset_cc cc3d_connected_components gap_labels gap_labels
       (gap_params 1)
     = Ok [(View (0, 0, 0) (1, 1, 1), View (0, 0, 0) (1, 1, 1), "0-0-0");
           (View (0, 0, 1) (1, 1, 2), View (0, 0, 1) (1, 1, 2), "0-0-1")].
Proof.
  split; [intros; apply crops_loop_mask_dilation|]. split.
  - intros H. apply (f_equal (fun m => item m (0, 0, 1))) in H. vm_compute in H.
    discriminate.
  - split; vm_compute; reflexivity.
Qed.

(** C8: two blobs of one volume whose margined boxes have the same extents
    are saved under the same CT path and the same label path, and what is
    left on disk are the arrays of the second crop. *)
Theorem same_size_blobs_share_one_filename :
  exists s1 s2,
    (process_pair cc3d_connected_components nearest_zoom decimal_str
       twin_config twin_pair).1 = [s1; s2]
    /\ summary s1 = (twin_ct_path, twin_seg_path, [101; 102; 103; 104], [0; 0; 1; 0])
    /\ summary s2 = (twin_ct_path, twin_seg_path, [107; 108; 109; 110], [0; 0; 1; 0])
    /\ replay [s1; s2] ∅ !! twin_ct_path = Some (ct_npy s2)
    /\ replay [s1; s2] ∅ !! twin_seg_path = Some (seg_npy s2).
Proof.
  assert (Hsum : summary <$> (process_pair cc3d_connected_components nearest_zoom
                                decimal_str twin_config twin_pair).1
                 = [(twin_ct_path, twin_seg_path, [101; 102; 103; 104], [0; 0; 1; 0]);
                    (twin_ct_path, twin_seg_path, [107; 108; 109; 110], [0; 0; 1; 0])])
    by (vm_compute; reflexivity).
  destruct (process_pair cc3d_connected_components nearest_zoom decimal_str
              twin_config twin_pair).1 as [|s1 [|s2 [|s3 l]]]; try discriminate.
  rewrite !fmap_cons in Hsum. unfold summary in Hsum.
  injection Hsum as Hc1 Hg1 Hd1 Hl1 Hc2 Hg2 Hd2 Hl2.
  exists s1, s2. split; [reflexivity|]. unfold summary.
  split; [rewrite Hc1, Hg1, Hd1, Hl1; reflexivity|].
  split; [rewrite Hc2, Hg2, Hd2, Hl2; reflexivity|].
  unfold replay, persist, np_save. simpl. rewrite Hc1, Hg1, Hc2, Hg2. split.
  - rewrite lookup_insert_ne by discriminate. apply lookup_insert_eq.
  - apply lookup_insert_eq.
Qed.

Section Clip.
Variable connected_components : ndarray bool -> ndarray Z.
Variable zoom : ndarray Z -> Q * Q * Q -> Z -> ndarray Z.
Variable num_str : Q -> string.
Variable cfg : dataset_config.

Lemma saved_ct_clipped_without_resampling f s p :
  Qeq_bool (slice_size_mm cfg) 1 = true -> Qeq_bool (spatial_scale cfg) 1 = true ->
  s ∈ (process_pair connected_components zoom num_str cfg f).1 ->
  IMG_MIN_VAL <= item (ct_npy s) p <= IMG_MAX_VAL.
Proof.
  intros H1 H2 Hs. apply process_pair_log in Hs as (_ & blobs & _ & Hs).
  destruct (save_blobs_log zoom num_str cfg (fun _ => True) f _
              (fun _ _ _ _ _ _ _ => I) _ _ _ s I Hs)
    as (n & [[ctv segv] loc] & seg_n & seg' & _ & _ & Hp).
  apply process_blob_inv in Hp as (-> & ct_array & seg_array & Hr & Ho).
  destruct (too_small _ _); [discriminate|]. injection Ho as ->.
  unfold resample in Hr. rewrite H1, H2 in Hr. injection Hr as <- _.
  cbn [ct_npy deref item np_clip]. unfold IMG_MIN_VAL, IMG_MAX_VAL. lia.
Qed.

(** C5: every voxel of a saved CT array lies within [-512, 512] when the
    resampling is skipped; when it is not, the saved CT array is what the
    order 3 zoom returns on the clipped crop, with no clipping after it, so
    that its values are bounded by nothing but the resampler. *)
Theorem resampled_ct_is_saved_unclipped (f : source_pair) (s : saved) :
  s ∈ (process_pair connected_components zoom num_str cfg f).1 ->
  (Qeq_bool (slice_size_mm cfg) 1 && Qeq_bool (spatial_scale cfg) 1 = true ->
   forall p, IMG_MIN_VAL <= item (ct_npy s) p <= IMG_MAX_VAL)
  /\ (Qeq_bool (slice_size_mm cfg) 1 && Qeq_bool (spatial_scale cfg) 1 = false ->
      exists blobs ctv segv loc,
        all_blobs_of connected_components cfg
          (np_clip (ct_image f) IMG_MIN_VAL IMG_MAX_VAL) (seg_image f) = Ok blobs
        /\ (ctv, segv, loc) ∈ blobs
        /\ ct_npy s
           = zoom (deref (np_clip (ct_image f) IMG_MIN_VAL IMG_MAX_VAL) ctv)
                  ((ct_spacing f / slice_size_mm cfg)%Q, spatial_scale cfg,
                   spatial_scale cfg) 3).
Proof.
  intros Hs. split.
  - intros H p. apply andb_true_iff in H as [H1 H2].
    eapply saved_ct_clipped_without_resampling; eassumption.
  - intros H. apply process_pair_log in Hs as (_ & blobs & Hb & Hs).
    destruct (save_blobs_log zoom num_str cfg (fun _ => True) f _
                (fun _ _ _ _ _ _ _ => I) _ _ _ s I Hs)
      as (n & [[ctv segv] loc] & seg_n & seg' & Hn & _ & Hp).
    apply list_elem_of_lookup_2 in Hn.
    apply process_blob_inv in Hp as (-> & ct_array & seg_array & Hr & Ho).
    destruct (too_small _ _); [discriminate|]. injection Ho as ->.
    exists blobs, ctv, segv, loc. split; [exact Hb|]. split; [exact Hn|].
    unfold resample in Hr.
    assert (negb (Qeq_bool (slice_size_mm cfg) 1) || negb (Qeq_bool (spatial_scale cfg) 1)
            = true) as Hon.
    { destruct (Qeq_bool (slice_size_mm cfg) 1), (Qeq_bool (spatial_scale cfg) 1);
        try reflexivity; discriminate. }
    rewrite Hon in Hr. destruct (Qeq_bool _ 0); [discriminate|].
    injection Hr as <- _. reflexivity.
Qed.

End Clip.

(** On a volume with an edge the cubic resampler overshoots: a row of the
    clipped volume is [-512 -512 -512 512 512 512] and the row saved for it
    reaches -574 and 574. *)
Lemma resampled_ct_witness :
  exists s,
    s ∈ (process_pair cc3d_connected_components cubic_zoom decimal_str
           edge_config edge_pair).1
    /\ (fun k => item (np_clip (ct_image edge_pair) IMG_MIN_VAL IMG_MAX_VAL) (0, 0, k))
         <$> seqZ 0 6
       = [-512; -512; -512; 512; 512; 512]
    /\ (fun k => item (ct_npy s) (0, 0, k)) <$> seqZ 0 12
       = [-512; -512; -512; -555; -574; -279; 279; 574; 555; 512; 512; 512]
    /\ item (ct_npy s) (0, 0, 4) < IMG_MIN_VAL
    /\ IMG_MAX_VAL < item (ct_npy s) (0, 0, 7)
    /\ exists blobs ctv segv loc,
         all_blobs_of cc3d_connected_components edge_config
           (np_clip (ct_image edge_pair) IMG_MIN_VAL IMG_MAX_VAL) (seg_image edge_pair)
         = Ok blobs
         /\ (ctv, segv, loc) ∈ blobs
         /\ ct_npy s
            = cubic_zoom (deref (np_clip (ct_image edge_pair) IMG_MIN_VAL IMG_MAX_VAL) ctv)
                         ((ct_spacing edge_pair / slice_size_mm edge_config)%Q,
                          spatial_scale edge_config, spatial_scale edge_config) 3.
Proof.
  assert (Hv : (fun s => ((fun k => item (ct_npy s) (0, 0, k)) <$> seqZ 0 12,
                           item (ct_npy s) (0, 0, 4), item (ct_npy s) (0, 0, 7)))
                 <$> (process_pair cc3d_connected_components cubic_zoom decimal_str
                        edge_config edge_pair).1
               = [([-512; -512; -512; -555; -574; -279; 279; 574; 555; 512; 512; 512],
                   -574, 574)])
    by (vm_compute; reflexivity).
  destruct (process_pair cc3d_connected_components cubic_zoom decimal_str
              edge_config edge_pair).1 as [|s l] eqn:E; [discriminate|].
  rewrite fmap_cons in Hv.
  assert (Hrow : (fun k => item (ct_npy s) (0, 0, k)) <$> seqZ 0 12
                 = [-512; -512; -512; -555; -574; -279; 279; 574; 555; 512; 512; 512])
    by exact (f_equal (fun r => match r with x :: _ => x.1.1 | [] => [] end) Hv).
  assert (Hlo : item (ct_npy s) (0, 0, 4) = -574)
    by exact (f_equal (fun r => match r with x :: _ => x.1.2 | [] => 0 end) Hv).
  assert (Hhi : item (ct_npy s) (0, 0, 7) = 574)
    by exact (f_equal (fun r => match r with x :: _ => x.2 | [] => 0 end) Hv).
  exists s. split; [left|]. split; [vm_compute; reflexivity|].
  split; [exact Hrow|]. split; [rewrite Hlo; reflexivity|].
  split; [rewrite Hhi; reflexivity|].
  apply (resampled_ct_is_saved_unclipped cc3d_connected_components cubic_zoom
           decimal_str edge_config edge_pair s).
  - rewrite E. left.
  - reflexivity.
Defined.

Lemma size_gate_witness :
  exists s,
    s ∈ (process_pair cc3d_connected_components nearest_zoom decimal_str
           liver_config liver_pair).1
    /\ shape (ct_npy s) = shape (seg_npy s)
    /\ shape_ge (shape (ct_npy s)) (min_sizes liver_config).
Proof.
  assert (Hlen : length (process_pair cc3d_connected_components nearest_zoom
                            decimal_str liver_config liver_pair).1 = 2%nat)
    by (vm_compute; reflexivity).
  destruct (process_pair cc3d_connected_components nearest_zoom decimal_str
              liver_config liver_pair).1 as [|s l] eqn:E; [discriminate|].
  exists s. split; [left|].
  apply (proj1 (persisted_crops_pass_size_gate cc3d_connected_components
                  nearest_zoom decimal_str liver_config nearest_zoom_shape) liver_pair s).
  rewrite E. left.
Defined.

Lemma shape_mismatch_witness :
  shape (seg_image mismatched_pair) <> shape (ct_image mismatched_pair)
  /\ process_pair cc3d_connected_components nearest_zoom decimal_str twin_config
       mismatched_pair = ([], Raise AssertionError)
  /\ create_dataset cc3d_connected_components nearest_zoom decimal_str twin_config
       ([twin_pair] ++ mismatched_pair :: [twin_pair])
     = (let '(log, r) := create_dataset cc3d_connected_components nearest_zoom
                           decimal_str twin_config [twin_pair] in
        (log, match r with Ok _ => Raise AssertionError | Raise e => Raise e end)).
Proof.
  assert (H : shape (seg_image mismatched_pair) <> shape (ct_image mismatched_pair))
    by (vm_compute; discriminate).
  split; [exact H|].
  exact (shape_mismatch_halts_batch cc3d_connected_components nearest_zoom decimal_str
           twin_config mismatched_pair [twin_pair] [twin_pair] H).
Defined.

Lemma label_save_witness :
  occurs "volume" (splitext_root (ct_filename scan_pair)) = false
  /\ exists s,
       s ∈ (process_pair cc3d_connected_components nearest_zoom decimal_str
              twin_config scan_pair).1
       /\ seg_path s = ct_path s
       /\ forall fs, persist fs s !! ct_path s = Some (seg_npy s).
Proof.
  split; [reflexivity|].
  assert (Hlen : length (process_pair cc3d_connected_components nearest_zoom
                            decimal_str twin_config scan_pair).1 = 2%nat)
    by (vm_compute; reflexivity).
  destruct (process_pair cc3d_connected_components nearest_zoom decimal_str
              twin_config scan_pair).1 as [|s l] eqn:E; [discriminate|].
  exists s. split; [left|].
  apply (label_save_overwrites_ct_crop cc3d_connected_components nearest_zoom
           decimal_str twin_config decimal_str_lacks_o scan_pair s).
  - rewrite E. left.
  - reflexivity.
Defined.

(** C1: on the scenario of section 8 the cropper returns one crop, cut at
    [9:20, 28:41, 28:41] with shape (11, 13, 13). *)
Theorem scenario_crop_is_one_voxel_short :
  crop_to_boxes_of_interset_cc cc3d_connected_components scenario_ct scenario_labels
    scenario_params
  = Ok [(View (9, 28, 28) (11, 13, 13), View (9, 28, 28) (11, 13, 13), "5-6-6")].
Proof.
  vm_cast_no_check
    (eq_refl (Ok [(View (9, 28, 28) (11, 13, 13), View (9, 28, 28) (11, 13, 13),
                   "5-6-6"%string)])).
Qed.

(** ** More on the cropper *)

(** One iteration of the loop, for a blob that [cc3d_each] yields: nothing
    raises, and the outcome is decided by one count. *)
Lemma blob_crop_cases cc label image :
  (label, image) ∈ cc3d_each cc ->
  exists lo hi other,
    let '(l0, l1, l2) := lo in let '(h0, h1, h2) := hi in
    let '(d, h, w) := shape cc in
    (0 <= l0 <= h0 /\ h0 < d) /\ (0 <= l1 <= h1 /\ h1 < h) /\ (0 <= l2 <= h2 /\ h2 < w)
    /\ (forall i j k, in_bounds (shape cc) (i, j, k) -> item cc (i, j, k) = label ->
          l0 <= i <= h0 /\ l1 <= j <= h1 /\ l2 <= k <= h2)
    /\ 0 <= other <= (h0 - l0 + 1) * (h1 - l1 + 1) * (h2 - l2 + 1)
    /\ forall image_volume labels_volume params,
         blob_crop image_volume labels_volume cc params label image
         = Ok (if negb (Qle_bool (ratio other ((h0 - l0 + 1) * (h1 - l1 + 1) * (h2 - l2 + 1)))
                                 (allowed_perc_other_blobs params))
               then None
               else let r := margined (slice_margins params) lo hi in
                    Some (basic_index (shape image_volume) r,
                          basic_index (shape labels_volume) r,
                          location_string_of r)).
Proof.
  intros Hblob.
  apply elem_of_cc3d_each in Hblob as (-> & Hnz & p0 & Hp0 & Hlab).
  assert (Hp0' : item (eq_scalar cc label) p0 = true)
    by (simpl; apply Z.eqb_eq; exact Hlab).
  destruct (blob_ranges (eq_scalar cc label) (0, 0, 0) p0 Hp0 Hp0')
    as (l0 & l1 & l2 & h0 & h1 & h2 & Hr).
  change (shape (eq_scalar cc label)) with (shape cc) in Hr.
  destruct (shape cc) as [[d h] w] eqn:Hs.
  destruct Hr as (Ht & _ & H0 & H1 & H2 & Hin).
  set (box := (Slice l0 (h0 + 1), Slice l1 (h1 + 1), Slice l2 (h2 + 1))) in *.
  assert (Hget : getitem cc box
                 = deref cc (View (l0, l1, l2) (h0 - l0 + 1, h1 - l1 + 1, h2 - l2 + 1))).
  { unfold getitem. rewrite Hs. unfold box. rewrite basic_index_tight by assumption.
    reflexivity. }
  set (L := flatten (getitem cc box)).
  assert (Hlen : Z.of_nat (length L) = (h0 - l0 + 1) * (h1 - l1 + 1) * (h2 - l2 + 1)).
  { unfold L. rewrite Hget. unfold flatten. rewrite length_fmap.
    unfold deref. cbn [shape extent]. apply length_indices; lia. }
  assert (HlabL : label ∈ L).
  { unfold L. rewrite Hget. apply elem_of_flatten_deref.
    destruct p0 as [[a b] c].
    destruct (Hin a b c) as (? & ? & ?); [exact Hp0|exact Hp0'|].
    exists (a - l0), (b - l1), (c - l2). split; [simpl; lia|].
    rewrite <- Hlab. do 2 f_equal; [f_equal|]; lia. }
  destruct (np_unique L) as [|v0 rest] eqn:Hu.
  { apply elem_of_np_unique in HlabL. rewrite Hu in HlabL. inversion HlabL. }
  set (other := Z.of_nat (length (List.filter
                  (fun v => negb (v =? v0) && negb (v =? label)) L))).
  exists (l0, l1, l2), (h0, h1, h2), other.
  split; [exact H0|]. split; [exact H1|]. split; [exact H2|]. split.
  { intros i j k Hb Hv. apply Hin; [exact Hb|]. simpl. apply Z.eqb_eq. exact Hv. }
  split.
  { rewrite <- Hlen. unfold other. split; [lia|].
    apply inj_le. apply filter_length_le. }
  intros image_volume labels_volume params.
  assert (Hother : other_non_bg_occurances cc box label = Ok other).
  { unfold other_non_bg_occurances, np_unique_counts. fold L.
    apply (other_count_list L label v0 rest Hu HlabL). }
  assert (Hsize : size (getitem cc box)
                  = (h0 - l0 + 1) * (h1 - l1 + 1) * (h2 - l2 + 1)).
  { rewrite Hget. reflexivity. }
  unfold blob_crop. rewrite Ht, bind_Ok, Hother, bind_Ok, Hsize.
  destruct (negb _); [reflexivity|].
  destruct (slice_margins params) as [[m0 m1] m2] eqn:Hm.
  destruct (blob_ranges (eq_scalar cc label) (m0, m1, m2) p0)
    as (l0' & l1' & l2' & h0' & h1' & h2' & Hr');
    [change (in_bounds (shape cc) p0); rewrite Hs; exact Hp0|exact Hp0'|].
  change (shape (eq_scalar cc label)) with (shape cc) in Hr'. rewrite Hs in Hr'.
  destruct Hr' as (Ht' & Hm' & _).
  rewrite Ht in Ht'. injection Ht' as <- E0 <- E1 <- E2.
  assert (h0' = h0) as -> by lia. assert (h1' = h1) as -> by lia.
  assert (h2' = h2) as -> by lia.
  rewrite Hm', bind_Ok. reflexivity.
Qed.

Lemma crops_loop_never_raises image_volume labels_volume cc params blobs :
  (forall b, b ∈ blobs -> b ∈ cc3d_each cc) ->
  exists crops,
    crops_loop image_volume labels_volume cc params blobs = Ok crops
    /\ (length crops <= length blobs)%nat.
Proof.
  induction blobs as [|[label image] blobs IH]; intros Hall.
  - exists []. split; [reflexivity|simpl; lia].
  - destruct IH as (crops & Hc & Hlen); [intros b Hb; apply Hall; right; exact Hb|].
    destruct (blob_crop_cases cc label image) as ([[l0 l1] l2] & [[h0 h1] h2] & other & H);
      [apply Hall; left|].
    destruct (shape cc) as [[d h] w]. destruct H as (_ & _ & _ & _ & _ & H).
    cbn [crops_loop]. rewrite H, bind_Ok, Hc, bind_Ok.
    destruct (negb _); eexists; (split; [reflexivity|simpl; lia]).
Qed.

Lemma adjust_nonneg n i : 0 <= i -> adjust n i = Z.min i n.
Proof. intros H. unfold adjust. destruct (Z.ltb_spec i 0); [lia|reflexivity]. Qed.

Lemma axis_covered d l h m i :
  0 <= l <= h -> h < d -> 1 <= m -> l <= i <= h ->
  0 <= i - slice_start (Slice (Z.max 0 (l - m)) (h + m)) d
    < slice_len (Slice (Z.max 0 (l - m)) (h + m)) d.
Proof.
  intros. unfold slice_start, slice_len. cbn [start stop].
  rewrite !adjust_nonneg by lia. lia.
Qed.

Section CropperFacts.

Variable connected_components : ndarray bool -> ndarray Z.

(** X1: on a label volume without an empty axis, and with the two calls into
    cc3d taken as returning, the steps of the cropper itself never raise (the
    minimum and maximum of [np.where], the lookup of the label among the
    unique values, [np.delete], the division by the size of the box): it
    returns a list of crops, one per blob of the labeling at most. *)
Theorem cropper_never_raises (image_volume labels_volume : ndarray Z)
    (params : cropping_params) :
  nonempty_shape (shape labels_volume) ->
  exists crops,
    crop_to_boxes_of_interset_cc connected_components image_volume labels_volume params
    = Ok crops
    /\ (length crops
        <= length (cc3d_each (connected_components
                                (eq_scalar labels_volume (cropping_lable params)))))%nat.
Proof.
  intros _. unfold crop_to_boxes_of_interset_cc. apply crops_loop_never_raises. auto.
Qed.

Lemma crops_loop_tolerance image_volume labels_volume cc params a blobs :
  (forall b, b ∈ blobs -> b ∈ cc3d_each cc) ->
  (allowed_perc_other_blobs params <= a)%Q ->
  exists crops crops',
    crops_loop image_volume labels_volume cc params blobs = Ok crops
    /\ crops_loop image_volume labels_volume cc (with_tolerance params a) blobs = Ok crops'
    /\ crops `sublist_of` crops'.
Proof.
  intros Hall Hle. induction blobs as [|[label image] blobs IH].
  - exists [], []. repeat split; constructor.
  - destruct IH as (crops & crops' & Hc & Hc' & Hsub);
      [intros b Hb; apply Hall; right; exact Hb|].
    destruct (blob_crop_cases cc label image) as ([[l0 l1] l2] & [[h0 h1] h2] & other & H);
      [apply Hall; left|].
    destruct (shape cc) as [[d h] w]. destruct H as (_ & _ & _ & _ & _ & H).
    cbn [crops_loop]. rewrite !H, !bind_Ok, Hc, Hc', !bind_Ok.
    cbn [with_tolerance allowed_perc_other_blobs slice_margins].
    set (r := ratio other _).
    destruct (Qle_bool r (allowed_perc_other_blobs params)) eqn:E.
    + assert (Qle_bool r a = true) as ->.
      { apply Qle_bool_iff. apply Qle_bool_iff in E. eapply Qle_trans; eassumption. }
      cbn [negb]. eexists _, _. split; [reflexivity|]. split; [reflexivity|].
      constructor. exact Hsub.
    + cbn [negb]. destruct (negb (Qle_bool r a)); eexists _, _;
        (split; [reflexivity|]); (split; [reflexivity|]);
        [exact Hsub|constructor; exact Hsub].
Qed.

(** X2: a larger [allowed_perc_other_blobs] only adds crops: the crops of
    the smaller tolerance are among those of the larger one, in the same
    order. *)
Theorem raising_tolerance_keeps_crops (image_volume labels_volume : ndarray Z)
    (params : cropping_params) (a : Q) :
  (allowed_perc_other_blobs params <= a)%Q ->
  exists crops crops',
    crop_to_boxes_of_interset_cc connected_components image_volume labels_volume params
    = Ok crops
    /\ crop_to_boxes_of_interset_cc connected_components image_volume labels_volume
         (with_tolerance params a) = Ok crops'
    /\ crops `sublist_of` crops'.
Proof.
  intros Hle. unfold crop_to_boxes_of_interset_cc.
  cbn [with_tolerance cropping_lable]. apply crops_loop_tolerance; auto.
Qed.

Lemma ratio_le_1 other total : 0 <= other <= total -> 0 < total -> (ratio other total <= 1)%Q.
Proof.
  intros Ho Ht. unfold ratio. apply Qle_shift_div_r.
  - change 0%Q with (inject_Z 0). rewrite <- Zlt_Qlt. exact Ht.
  - rewrite Qmult_1_l. rewrite <- Zle_Qle. lia.
Qed.

Lemma crops_loop_full_tolerance image_volume labels_volume cc params blobs :
  (forall b, b ∈ blobs -> b ∈ cc3d_each cc) ->
  (1 <= allowed_perc_other_blobs params)%Q ->
  exists crops,
    crops_loop image_volume labels_volume cc params blobs = Ok crops
    /\ length crops = length blobs.
Proof.
  intros Hall Hle. induction blobs as [|[label image] blobs IH].
  - exists []. split; reflexivity.
  - destruct IH as (crops & Hc & Hlen); [intros b Hb; apply Hall; right; exact Hb|].
    destruct (blob_crop_cases cc label image) as ([[l0 l1] l2] & [[h0 h1] h2] & other & H);
      [apply Hall; left|].
    destruct (shape cc) as [[d h] w].
    destruct H as (H0 & H1 & H2 & _ & Ho & H).
    cbn [crops_loop]. rewrite H, bind_Ok, Hc, bind_Ok.
    assert (Qle_bool (ratio other ((h0 - l0 + 1) * (h1 - l1 + 1) * (h2 - l2 + 1)))
                     (allowed_perc_other_blobs params) = true) as ->.
    { apply Qle_bool_iff. eapply Qle_trans; [|exact Hle].
      apply ratio_le_1; [exact Ho|]. apply Z.mul_pos_pos; [apply Z.mul_pos_pos|]; lia. }
    cbn [negb]. eexists. split; [reflexivity|]. simpl. rewrite Hlen. reflexivity.
Qed.

(** X3: with [allowed_perc_other_blobs] of one or more no blob is dropped:
    there are as many crops as blobs. *)
Theorem full_tolerance_keeps_every_blob (image_volume labels_volume : ndarray Z)
    (params : cropping_params) :
  (1 <= allowed_perc_other_blobs params)%Q ->
  exists crops,
    crop_to_boxes_of_interset_cc connected_components image_volume labels_volume params
    = Ok crops
    /\ length crops
       = length (cc3d_each (connected_components
                              (eq_scalar labels_volume (cropping_lable params)))).
Proof.
  intros Hle. unfold crop_to_boxes_of_interset_cc.
  apply crops_loop_full_tolerance; auto.
Qed.

(** X4: every crop is a view inside its volume: each of its voxels is a
    voxel of the image volume, or of the label volume. *)
Theorem crops_lie_inside_volume (image_volume labels_volume : ndarray Z)
    (params : cropping_params) (crops : list crop) (ctv segv : view) (loc : string) :
  valid_shape (shape image_volume) -> valid_shape (shape labels_volume) ->
  crop_to_boxes_of_interset_cc connected_components image_volume labels_volume params
  = Ok crops ->
  (ctv, segv, loc) ∈ crops ->
  forall p,
    (in_bounds (extent ctv) p -> in_bounds (shape image_volume) (shift (offset ctv) p))
    /\ (in_bounds (extent segv) p -> in_bounds (shape labels_volume) (shift (offset segv) p)).
Proof.
  intros Hi Hl Hc Hin p. unfold crop_to_boxes_of_interset_cc in Hc.
  destruct (crops_loop_crops _ _ _ _ _ _ _ Hc Hin) as [r [= -> -> _]].
  split; apply basic_index_in_bounds; assumption.
Qed.

(** With a margin of one or more on every axis the label view of a blob's
    crop holds every voxel of the blob. *)
Lemma positive_margins_cover_blob (image_volume labels_volume cc : ndarray Z)
    (params : cropping_params) (label : Z) (image : ndarray bool)
    (ctv segv : view) (loc : string) :
  (label, image) ∈ cc3d_each cc ->
  shape labels_volume = shape cc ->
  (let '(m0, m1, m2) := slice_margins params in 1 <= m0 /\ 1 <= m1 /\ 1 <= m2) ->
  blob_crop image_volume labels_volume cc params label image = Ok (Some (ctv, segv, loc)) ->
  forall p, in_bounds (shape cc) p -> item cc p = label -> in_viewb segv p = true.
Proof.
  intros Hblob Hshape Hm Hcrop [[i j] k] Hp Hv.
  destruct (blob_crop_cases cc label image Hblob)
    as ([[l0 l1] l2] & [[h0 h1] h2] & other & H).
  destruct (shape cc) as [[d h] w].
  destruct H as (H0 & H1 & H2 & Hin & _ & H). rewrite H, Hshape in Hcrop.
  destruct (negb _); [discriminate|]. injection Hcrop as _ <- _.
  destruct (Hin i j k Hp Hv) as (Hi & Hj & Hk).
  destruct (slice_margins params) as [[m0 m1] m2]. destruct Hm as (? & ? & ?).
  unfold in_viewb, margined, basic_index. cbn [offset extent].
  apply in_boundsb_spec. unfold in_bounds.
  split; [|split]; apply axis_covered; lia.
Qed.

Lemma crops_loop_accepts image_volume labels_volume cc params blobs crops :
  (forall b, b ∈ blobs -> b ∈ cc3d_each cc) ->
  (1 <= allowed_perc_other_blobs params)%Q ->
  crops_loop image_volume labels_volume cc params blobs = Ok crops ->
  forall label image, (label, image) ∈ blobs ->
    exists c, c ∈ crops
      /\ blob_crop image_volume labels_volume cc params label image = Ok (Some c).
Proof.
  intros Hall Hle. revert crops.
  induction blobs as [|[label0 image0] blobs IH]; intros crops Hc label image Hin;
    [inversion Hin|].
  destruct (blob_crop_cases cc label0 image0)
    as ([[l0 l1] l2] & [[h0 h1] h2] & other & H); [apply Hall; left|].
  destruct (shape cc) as [[d h] w].
  destruct H as (H0 & H1 & H2 & _ & Ho & H).
  cbn [crops_loop] in Hc. rewrite H, bind_Ok in Hc.
  assert (Hq : Qle_bool (ratio other ((h0 - l0 + 1) * (h1 - l1 + 1) * (h2 - l2 + 1)))
                        (allowed_perc_other_blobs params) = true).
  { apply Qle_bool_iff. eapply Qle_trans; [|exact Hle].
    apply ratio_le_1; [exact Ho|]. apply Z.mul_pos_pos; [apply Z.mul_pos_pos|]; lia. }
  apply bind_Ok_inv in Hc as (rest & Hrest & Hc). rewrite Hq in Hc. cbn [negb] in Hc.
  injection Hc as <-.
  apply elem_of_cons in Hin as [[= -> ->]|Hin].
  - eexists. split; [left|]. rewrite H, Hq. reflexivity.
  - destruct (IH (fun b Hb => Hall b (proj2 (elem_of_cons _ _ _) (or_intror Hb))) rest Hrest
                 label image Hin) as (c & Hc & Hb).
    exists c. split; [right; exact Hc|exact Hb].
Qed.

(** X5: with a tolerance of one and a margin of one or more on every axis, every
    voxel that holds the cropping label lies in the label view of a crop,
    whenever the labeling keeps the shape of the mask and gives every voxel
    of the mask an id other than 0. *)
Theorem every_labelled_voxel_is_cropped (image_volume labels_volume : ndarray Z)
    (params : cropping_params) (crops : list crop) :
  (forall m, shape (connected_components m) = shape m) ->
  (forall m p, in_bounds (shape m) p -> item m p = true ->
     item (connected_components m) p <> 0) ->
  (1 <= allowed_perc_other_blobs params)%Q ->
  (let '(m0, m1, m2) := slice_margins params in 1 <= m0 /\ 1 <= m1 /\ 1 <= m2) ->
  crop_to_boxes_of_interset_cc connected_components image_volume labels_volume params
  = Ok crops ->
  forall p, in_bounds (shape labels_volume) p ->
    item labels_volume p = cropping_lable params ->
    exists ctv segv loc, (ctv, segv, loc) ∈ crops /\ in_viewb segv p = true.
Proof.
  intros Hshape Hfg Hle Hm Hc p Hp Hv. unfold crop_to_boxes_of_interset_cc in Hc.
  set (mask := eq_scalar labels_volume (cropping_lable params)) in *.
  set (cc := connected_components mask) in *.
  assert (Hs : shape cc = shape labels_volume) by (unfold cc; rewrite Hshape; reflexivity).
  assert (Hnz : item cc p <> 0).
  { apply Hfg; [exact Hp|]. simpl. apply Z.eqb_eq. exact Hv. }
  assert (Hblob : (item cc p, eq_scalar cc (item cc p)) ∈ cc3d_each cc).
  { unfold cc3d_each. apply (list_elem_of_fmap_2' _ _ (item cc p)); [|reflexivity].
    rewrite list_elem_of_In. apply filter_In. split.
    - rewrite <- list_elem_of_In. apply elem_of_np_unique. unfold flatten.
      apply list_elem_of_fmap_2. apply elem_of_indices. rewrite Hs. exact Hp.
    - apply negb_true_iff, Z.eqb_neq. exact Hnz. }
  destruct (crops_loop_accepts _ _ _ _ _ _ (fun b Hb => Hb) Hle Hc _ _ Hblob)
    as ([[ctv segv] loc] & Hin & Hb).
  exists ctv, segv, loc. split; [exact Hin|].
  eapply positive_margins_cover_blob; try eassumption; [symmetry; exact Hs| |reflexivity].
  rewrite Hs. exact Hp.
Qed.

End CropperFacts.

(** ** The cropper on concrete volumes *)

Lemma reference_labelling_shape m : shape (cc3d_connected_components m) = shape m.
Proof. reflexivity. Qed.

Lemma reference_labelling_foreground m p :
  in_bounds (shape m) p -> item m p = true -> item (cc3d_connected_components m) p <> 0.
Proof.
  intros Hp Hv. apply (proj2 (reference_labelling_is_component_labelling m) p).
  split; assumption.
Qed.

Lemma cropper_never_raises_witness :
  nonempty_shape (shape ring_labels)
  /\ exists crops,
       crop_to_boxes_of_interset_cc cc3d_connected_components ring_labels ring_labels
         ring_params = Ok crops
       /\ (length crops
           <= length (cc3d_each (cc3d_connected_components
                                   (eq_scalar ring_labels (cropping_lable ring_params)))))%nat.
Proof.
  assert (Hs : nonempty_shape (shape ring_labels)) by (vm_compute; repeat split; reflexivity).
  split; [exact Hs|].
  exact (cropper_never_raises cc3d_connected_components ring_labels ring_labels
           ring_params Hs).
Defined.

Lemma raising_tolerance_witness :
  exists crops crops',
    crop_to_boxes_of_interset_cc cc3d_connected_components ring_labels ring_labels
      ring_params = Ok crops
    /\ crop_to_boxes_of_interset_cc cc3d_connected_components ring_labels ring_labels
         (with_tolerance ring_params (1 # 2)) = Ok crops'
    /\ crops `sublist_of` crops'.
Proof.
  apply (raising_tolerance_keeps_crops cc3d_connected_components ring_labels ring_labels
           ring_params (1 # 2)).
  vm_compute. discriminate.
Defined.

Lemma full_tolerance_witness :
  exists crops,
    crop_to_boxes_of_interset_cc cc3d_connected_components ring_labels ring_labels
      (with_tolerance ring_params 1) = Ok crops
    /\ length crops
       = length (cc3d_each (cc3d_connected_components (eq_scalar ring_labels 1))).
Proof.
  apply (full_tolerance_keeps_every_blob cc3d_connected_components ring_labels ring_labels
           (with_tolerance ring_params 1)).
  vm_compute. discriminate.
Defined.

Lemma crops_inside_witness :
  valid_shape (shape gap_labels)
  /\ forall p,
       (in_bounds (extent (View (0, 0, 1) (1, 1, 2))) p
        -> in_bounds (shape gap_labels) (shift (offset (View (0, 0, 1) (1, 1, 2))) p))
       /\ (in_bounds (extent (View (0, 0, 1) (1, 1, 2))) p
           -> in_bounds (shape gap_labels) (shift (offset (View (0, 0, 1) (1, 1, 2))) p)).
Proof.
  assert (Hv : valid_shape (shape gap_labels)) by (vm_compute; repeat split; discriminate).
  split; [exact Hv|].
  apply (crops_lie_inside_volume cc3d_connected_components gap_labels gap_labels
           (gap_params 1)
           [(View (0, 0, 0) (1, 1, 1), View (0, 0, 0) (1, 1, 1), "0-0-0");
            (View (0, 0, 1) (1, 1, 2), View (0, 0, 1) (1, 1, 2), "0-0-1")]
           (View (0, 0, 1) (1, 1, 2)) (View (0, 0, 1) (1, 1, 2)) "0-0-1" Hv Hv).
  - vm_compute. reflexivity.
  - right. left.
Defined.

Lemma labelled_voxel_witness :
  exists ctv segv loc,
    (ctv, segv, loc) ∈ [(View (0, 0, 0) (1, 1, 1), View (0, 0, 0) (1, 1, 1), "0-0-0");
                        (View (0, 0, 1) (1, 1, 2), View (0, 0, 1) (1, 1, 2), "0-0-1")]
    /\ in_viewb segv (0, 0, 2) = true.
Proof.
  apply (every_labelled_voxel_is_cropped cc3d_connected_components gap_labels gap_labels
           (with_tolerance (gap_params 1) 1) _
           reference_labelling_shape reference_labelling_foreground).
  - vm_compute. discriminate.
  - vm_compute. repeat split; discriminate.
  - vm_compute. reflexivity.
  - vm_compute. repeat split; discriminate.
  - reflexivity.
Defined.

(** ** More on strings and paths *)

Lemma prefix_empty s : String.prefix EmptyString s = true.
Proof. destruct s; reflexivity. Qed.

Lemma prefix_app old a b :
  String.prefix old a = true -> String.prefix old (a +:+ b) = true.
Proof.
  revert a. induction old as [|o old IH]; intros a; [intros _; apply prefix_empty|].
  destruct a as [|x a]; [discriminate|]. simpl.
  destruct (ascii_dec o x); [apply IH|discriminate].
Qed.

Lemma occurs_app_l old a b : occurs old a = true -> occurs old (a +:+ b) = true.
Proof.
  induction a as [|x a IH]; cbn [occurs].
  - rewrite orb_false_r. intros H. destruct old; [|discriminate].
    destruct b; reflexivity.
  - intros H. apply orb_true_iff in H as [H|H].
    + change (String x a +:+ b) with (String x (a +:+ b)). cbn [occurs].
      change (String x (a +:+ b)) with (String x a +:+ b).
      rewrite (prefix_app _ _ _ H). reflexivity.
    + change (String x a +:+ b) with (String x (a +:+ b)). cbn [occurs].
      rewrite (IH H). apply orb_true_r.
Qed.

Lemma occurs_app_r old a b : occurs old b = true -> occurs old (a +:+ b) = true.
Proof.
  intros H. induction a as [|x a IH]; [exact H|].
  change (String x a +:+ b) with (String x (a +:+ b)). cbn [occurs].
  rewrite IH. apply orb_true_r.
Qed.

Lemma occurs_path_join_r old a b :
  occurs old b = true -> occurs old (path_join a b) = true.
Proof.
  intros H. unfold path_join. destruct (starts_with "/" b); [exact H|].
  destruct (_ || _); [apply occurs_app_r; exact H|].
  apply occurs_app_r, occurs_app_r. exact H.
Qed.

Lemma prefix_length old s :
  String.prefix old s = true -> (String.length old <= String.length s)%nat.
Proof.
  revert s. induction old as [|o old IH]; intros s; [simpl; lia|].
  destruct s as [|x s]; [discriminate|]. simpl.
  destruct (ascii_dec o x); [|discriminate]. intros H. apply IH in H. lia.
Qed.

Lemma string_length_app a b :
  String.length (a +:+ b) = (String.length a + String.length b)%nat.
Proof. induction a as [|x a IH]; [reflexivity|]. simpl. rewrite IH. reflexivity. Qed.

(** A replacement by a longer string never shortens. *)
Lemma replace_go_length old new k s :
  (String.length old < String.length new)%nat ->
  (String.length s - k <= String.length (replace_go old new k s))%nat.
Proof.
  intros Hlen. revert k. induction s as [|x s IH]; intros k; [simpl; lia|].
  destruct k as [|k]; cbn [replace_go].
  - destruct (String.prefix old (String x s)).
    + rewrite string_length_app. specialize (IH (String.length old - 1)%nat). simpl. lia.
    + specialize (IH 0%nat). simpl. lia.
  - specialize (IH k). simpl. lia.
Qed.

Lemma replace_grows old new s :
  (String.length old < String.length new)%nat -> old <> EmptyString ->
  occurs old s = true ->
  (String.length s < String.length (str_replace old new s))%nat.
Proof.
  intros Hlen Hold. unfold str_replace. induction s as [|x s IH]; cbn [occurs].
  - rewrite orb_false_r. destruct old; [congruence|discriminate].
  - intros H. cbn [replace_go].
    destruct (String.prefix old (String x s)) eqn:Hp.
    + rewrite string_length_app. apply prefix_length in Hp.
      pose proof (replace_go_length old new (String.length old - 1) s Hlen) as Hg.
      assert (1 <= String.length old)%nat by (destruct old; [congruence|simpl; lia]).
      cbn [String.length] in *. lia.
    + simpl in H. apply IH in H. simpl. lia.
Qed.

Lemma string_app_assoc a b c : (a +:+ b) +:+ c = a +:+ (b +:+ c).
Proof.
  induction a as [|x a IH]; [reflexivity|].
  change (String x ((a +:+ b) +:+ c) = String x (a +:+ (b +:+ c))). rewrite IH. reflexivity.
Qed.

Lemma prefix_common a b c : String.prefix (a +:+ b) (a +:+ c) = String.prefix b c.
Proof.
  induction a as [|x a IH]; [reflexivity|].
  change (String.prefix (String x (a +:+ b)) (String x (a +:+ c)) = String.prefix b c).
  cbn [String.prefix]. destruct (ascii_dec x x); [exact IH|congruence].
Qed.

Lemma ends_with_cons c x s :
  s <> EmptyString -> ends_with c (String x s) = ends_with c s.
Proof.
  intros Hs. unfold ends_with, char_is. destruct s as [|y s]; [congruence|].
  cbn [String.length].
  replace (Z.to_nat (Z.of_nat (S (S (String.length s))) - 1))
    with (S (Z.to_nat (Z.of_nat (S (String.length s)) - 1))) by lia.
  reflexivity.
Qed.

Lemma ends_with_last c a d : ends_with c (a +:+ String d EmptyString) = Ascii.eqb d c.
Proof.
  induction a as [|x a IH]; [reflexivity|].
  change (String x a +:+ String d EmptyString) with (String x (a +:+ String d EmptyString)).
  rewrite ends_with_cons; [exact IH|]. destruct a; discriminate.
Qed.

Lemma path_join_dir a d b :
  Ascii.eqb d "/" = false -> starts_with "/" b = false ->
  path_join (a +:+ String d EmptyString) b = (a +:+ String d EmptyString) +:+ "/" +:+ b.
Proof.
  intros Hd Hb. unfold path_join. rewrite Hb, ends_with_last, Hd.
  rewrite string_length_app. cbn [String.length].
  replace (String.length a + 1 =? 0)%nat with false; [reflexivity|].
  symmetry. apply Nat.eqb_neq. lia.
Qed.

(** Across a character that [old] does not have, the replacement works on
    the two sides apart. *)
Lemma replace_sep c old new a b :
  lacks c old = true -> occurs old a = false ->
  str_replace old new (a +:+ String c b) = a +:+ String c (str_replace old new b).
Proof.
  intros Hc. unfold str_replace. induction a as [|x a IH]; cbn [occurs]; intros Ha.
  - rewrite orb_false_r in Ha.
    change (EmptyString +:+ String c b) with (String c b).
    pose proof (prefix_sep c old EmptyString b Hc) as Hp.
    change (EmptyString +:+ String c b) with (String c b) in Hp.
    cbn [replace_go]. rewrite Hp, Ha. reflexivity.
  - apply orb_false_iff in Ha as [Hp Ha].
    pose proof (prefix_sep c old (String x a) b Hc) as Hp'. rewrite Hp in Hp'.
    change (String x a +:+ String c b) with (String x (a +:+ String c b)) in *.
    cbn [replace_go]. rewrite Hp', (IH Ha). reflexivity.
Qed.

Lemma starts_with_root c p d r :
  starts_with c p = false -> Ascii.eqb d c = false ->
  starts_with c (splitext_root p +:+ String d r) = false.
Proof.
  intros Hp Hd. unfold splitext_root.
  destruct (_ && _).
  - destruct p as [|x p]; [exact Hd|].
    destruct (Z.to_nat (rfind "." (String x p))); [exact Hd|exact Hp].
  - destruct p as [|x p]; [exact Hd|exact Hp].
Qed.

(** ** More on the dataset builder *)

Section BuilderFacts.

Variable connected_components : ndarray bool -> ndarray Z.
Variable zoom : ndarray Z -> Q * Q * Q -> Z -> ndarray Z.
Variable num_str : Q -> string.
Variable cfg : dataset_config.

Lemma all_blobs_of_never_raises ct_array seg_array :
  exists blobs, all_blobs_of connected_components cfg ct_array seg_array = Ok blobs.
Proof.
  unfold all_blobs_of. destruct (crop_params cfg) as [p|]; [|eauto].
  unfold crop_to_boxes_of_interset_cc.
  destruct (crops_loop_never_raises ct_array seg_array
              (connected_components (eq_scalar seg_array (cropping_lable p))) p
              (cc3d_each (connected_components (eq_scalar seg_array (cropping_lable p)))))
    as (crops & Hc & _); [auto|].
  exists crops. exact Hc.
Qed.

Lemma process_pair_matching f :
  shape (seg_image f) = shape (ct_image f) ->
  exists blobs,
    all_blobs_of connected_components cfg
      (np_clip (ct_image f) IMG_MIN_VAL IMG_MAX_VAL) (seg_image f) = Ok blobs
    /\ process_pair connected_components zoom num_str cfg f
       = save_blobs zoom num_str cfg f (np_clip (ct_image f) IMG_MIN_VAL IMG_MAX_VAL)
           (seg_image f) 0 blobs.
Proof.
  intros Hs.
  destruct (all_blobs_of_never_raises (np_clip (ct_image f) IMG_MIN_VAL IMG_MAX_VAL)
              (seg_image f)) as [blobs Hb].
  exists blobs. split; [exact Hb|].
  unfold process_pair. rewrite bool_decide_eq_true_2 by exact Hs. rewrite Hb. reflexivity.
Qed.

(** X6: a file without a voxel of the cropping label yields no crop: nothing is
    saved for it and the loop goes on to the next file, whenever the
    labeling keeps the shape of the mask and gives ids other than 0 to voxels
    of the mask only. *)
Theorem unlabelled_file_saves_nothing (f : source_pair) (p : cropping_params) :
  (forall m, shape (connected_components m) = shape m) ->
  (forall m q, in_bounds (shape m) q -> item (connected_components m) q <> 0 ->
     item m q = true) ->
  crop_params cfg = Some p ->
  shape (seg_image f) = shape (ct_image f) ->
  (forall q, in_bounds (shape (seg_image f)) q -> item (seg_image f) q <> cropping_lable p) ->
  process_pair connected_components zoom num_str cfg f = ([], Ok ()).
Proof.
  intros Hshape Hcc Hp Hs Hnone. unfold process_pair.
  rewrite bool_decide_eq_true_2 by exact Hs.
  unfold all_blobs_of. rewrite Hp. unfold crop_to_boxes_of_interset_cc.
  set (cc := connected_components (eq_scalar (seg_image f) (cropping_lable p))).
  assert (Heach : cc3d_each cc = []).
  { unfold cc3d_each. rewrite filter_nil_all; [reflexivity|].
    intros v Hv. apply (proj1 (elem_of_np_unique _ _)) in Hv. unfold flatten in Hv.
    apply list_elem_of_fmap in Hv as (q & -> & Hq).
    apply elem_of_indices in Hq. unfold cc in Hq. rewrite Hshape in Hq.
    apply negb_false_iff, Z.eqb_eq.
    destruct (Z.eq_dec (item cc q) 0) as [E|E]; [exact E|].
    apply Hcc in E; [|exact Hq]. simpl in E. apply Z.eqb_eq in E.
    exfalso. exact (Hnone q Hq E). }
  rewrite Heach. reflexivity.
Qed.

(** X7: without resampling and without the remap, a saved pair is a copy of one
    box of the file: the CT crop holds the clipped CT voxels and the label
    crop the label voxels of the same positions. *)
Theorem crops_are_aligned_copies (f : source_pair) (s : saved) :
  Qeq_bool (slice_size_mm cfg) 1 = true -> Qeq_bool (spatial_scale cfg) 1 = true ->
  truthy (remove_liver_label cfg) = false ->
  valid_shape (shape (ct_image f)) ->
  s ∈ (process_pair connected_components zoom num_str cfg f).1 ->
  shape (seg_npy s) = shape (ct_npy s)
  /\ exists o, forall q, in_bounds (shape (ct_npy s)) q ->
       in_bounds (shape (ct_image f)) (shift o q)
       /\ item (ct_npy s) q
          = Z.min (Z.max (item (ct_image f) (shift o q)) IMG_MIN_VAL) IMG_MAX_VAL
       /\ item (seg_npy s) q = item (seg_image f) (shift o q).
Proof.
  intros H1 H2 Ht Hvalid Hs. apply process_pair_log in Hs as (Hshape & blobs & Hb & Hs).
  apply (save_blobs_log zoom num_str cfg (fun seg => seg = seg_image f)) in Hs
    as (n & [[ctv segv] loc] & seg_n & seg' & Hn & -> & Hp).
  2:{ intros seg idx [[ctv segv] loc] seg' o -> Hp.
      apply process_blob_inv in Hp as (-> & _).
      unfold remove_liver. rewrite Ht. reflexivity. }
  2:{ reflexivity. }
  apply list_elem_of_lookup_2 in Hn.
  pose proof (crop_views_agree connected_components cfg
                (np_clip (ct_image f) IMG_MIN_VAL IMG_MAX_VAL) (seg_image f)
                _ _ _ _ Hshape Hb Hn) as <-.
  apply process_blob_inv in Hp as (-> & ct_array & seg_array & Hr & Ho).
  destruct (too_small _ _); [discriminate|]. injection Ho as ->.
  unfold resample in Hr. rewrite H1, H2 in Hr. injection Hr as <- <-.
  cbn [ct_npy seg_npy deref shape item]. split; [reflexivity|].
  exists (offset ctv). intros q Hq.
  unfold remove_liver. rewrite Ht. split; [|split; reflexivity].
  destruct (all_blobs_of_crops _ _ _ _ _ _ Hb Hn) as [[r [= -> _ _]]|[= -> _ _]].
  - apply (basic_index_in_bounds (shape (ct_image f))); assumption.
  - apply (whole_in_bounds (shape (ct_image f))); assumption.
Qed.

(** X8: with [remove_liver_label] set and label volumes that hold 0, 1 and 2
    only, every saved label crop is binary. *)
Theorem remove_liver_saves_binary_labels (f : source_pair) (s : saved) :
  truthy (remove_liver_label cfg) = true ->
  valid_shape (shape (seg_image f)) ->
  (forall a dims q, in_bounds (shape (zoom a dims 0)) q ->
     exists q', in_bounds (shape a) q' /\ item (zoom a dims 0) q = item a q') ->
  (forall q, in_bounds (shape (seg_image f)) q -> 0 <= item (seg_image f) q <= 2) ->
  s ∈ (process_pair connected_components zoom num_str cfg f).1 ->
  forall q, in_bounds (shape (seg_npy s)) q ->
    item (seg_npy s) q = 0 \/ item (seg_npy s) q = 1.
Proof.
  intros Ht Hvalid Hzoom Hrange Hs.
  apply process_pair_log in Hs as (Hshape & blobs & Hb & Hs).
  apply (save_blobs_log zoom num_str cfg
           (fun seg => forall q, in_bounds (shape (seg_image f)) q -> 0 <= item seg q <= 2))
    in Hs as (n & [[ctv segv] loc] & seg_n & seg' & Hn & HI & Hp).
  2:{ intros seg idx [[ctv segv] loc] seg' o HI Hp q Hq.
      apply process_blob_inv in Hp as (-> & _).
      rewrite remove_liver_item by assumption. specialize (HI q Hq).
      destruct (in_viewb segv q); [|exact HI].
      destruct (Z.eqb_spec (item seg q) 1); [lia|].
      destruct (Z.eqb_spec (item seg q) 2); lia. }
  2:{ exact Hrange. }
  apply list_elem_of_lookup_2 in Hn.
  assert (Hview : forall q, in_bounds (extent segv) q ->
            in_bounds (shape (seg_image f)) (shift (offset segv) q)).
  { intros q Hq.
    destruct (all_blobs_of_crops _ _ _ _ _ _ Hb Hn) as [[r [= _ -> _]]|[= _ -> _]].
    - apply basic_index_in_bounds; assumption.
    - apply whole_in_bounds; assumption. }
  apply process_blob_inv in Hp as (-> & ct_array & seg_array & Hr & Ho).
  destruct (too_small _ _); [discriminate|]. injection Ho as ->. cbn [seg_npy].
  assert (Hvox : forall q, in_bounds (extent segv) q ->
            item (deref (remove_liver cfg seg_n segv) segv) q = 0
            \/ item (deref (remove_liver cfg seg_n segv) segv) q = 1).
  { intros q Hq. cbn [deref item].
    rewrite remove_liver_item, in_viewb_shift by assumption.
    specialize (HI _ (Hview q Hq)).
    destruct (Z.eqb_spec (item seg_n (shift (offset segv) q)) 1); [lia|].
    destruct (Z.eqb_spec (item seg_n (shift (offset segv) q)) 2); lia. }
  intros q Hq. unfold resample in Hr. destruct (negb _ || negb _).
  - destruct (Qeq_bool _ 0); [discriminate|]. injection Hr as <- <-.
    destruct (Hzoom _ _ _ Hq) as (q' & Hq' & ->). apply Hvox. exact Hq'.
  - injection Hr as <- <-. apply Hvox. exact Hq.
Qed.

(** X9: for a CT file whose base name holds ["volume"] the label path differs
    from the CT path, and both arrays of the crop are on disk after the two
    saves. *)
Theorem volume_named_crops_keep_both_arrays (f : source_pair) (s : saved) :
  occurs "volume" (splitext_root (ct_filename f)) = true ->
  s ∈ (process_pair connected_components zoom num_str cfg f).1 ->
  seg_path s <> ct_path s
  /\ forall fs, persist fs s !! ct_path s = Some (ct_npy s)
                /\ persist fs s !! seg_path s = Some (seg_npy s).
Proof.
  intros Hname Hs. apply process_pair_log in Hs as (_ & blobs & _ & Hs).
  destruct (save_blobs_log zoom num_str cfg (fun _ => True) f _
              (fun _ _ _ _ _ _ _ => I) _ _ _ s I Hs)
    as (n & [[ctv segv] loc] & seg_n & seg' & _ & _ & Hp).
  apply process_blob_inv in Hp as (-> & ct_array & seg_array & Hr & Ho).
  destruct (too_small _ _); [discriminate|]. injection Ho as ->.
  cbn [seg_path ct_path seg_npy ct_npy].
  set (path := crop_path num_str cfg (ct_filename f) loc (0 + Z.of_nat n)).
  assert (Hocc : occurs "volume" path = true).
  { unfold path, crop_path. apply occurs_path_join_r. unfold crop_fname.
    destruct (0 <? String.length loc)%nat; apply occurs_app_l; exact Hname. }
  assert (Hne : str_replace "volume" "segmentation" path <> path).
  { intros E. pose proof (replace_grows "volume" "segmentation" path) as Hg.
    rewrite E in Hg. specialize (Hg ltac:(simpl; lia) ltac:(discriminate) Hocc). lia. }
  split; [exact Hne|]. intros fs. unfold persist, np_save.
  cbn [seg_path ct_path seg_npy ct_npy]. split.
  - rewrite lookup_insert_ne by exact Hne. apply lookup_insert_eq.
  - apply lookup_insert_eq.
Qed.

Lemma resample_zero_slice spacing a b :
  Qeq_bool (slice_size_mm cfg) 0 = true ->
  resample zoom cfg spacing a b = Raise ZeroDivisionError.
Proof.
  intros H0. unfold resample. rewrite H0.
  assert (Qeq_bool (slice_size_mm cfg) 1 = false) as ->.
  { destruct (Qeq_bool (slice_size_mm cfg) 1) eqn:E; [|reflexivity].
    apply Qeq_bool_iff in E, H0. rewrite H0 in E. discriminate. }
  reflexivity.
Qed.

(** X11: with [slice_size_mm = 0] nothing is ever saved for a file: the division
    of the resampling step raises on its first crop. *)
Theorem zero_slice_size_saves_nothing (f : source_pair) :
  Qeq_bool (slice_size_mm cfg) 0 = true ->
  shape (seg_image f) = shape (ct_image f) ->
  exists blobs,
    all_blobs_of connected_components cfg
      (np_clip (ct_image f) IMG_MIN_VAL IMG_MAX_VAL) (seg_image f) = Ok blobs
    /\ process_pair connected_components zoom num_str cfg f
       = ([], match blobs with [] => Ok () | _ => Raise ZeroDivisionError end).
Proof.
  intros H0 Hs. destruct (process_pair_matching f Hs) as (blobs & Hb & ->).
  exists blobs. split; [exact Hb|].
  destruct blobs as [|[[ctv segv] loc] blobs]; [reflexivity|].
  cbn [save_blobs]. unfold process_blob. rewrite resample_zero_slice by exact H0.
  reflexivity.
Qed.

Lemma save_blobs_completes f ct blobs :
  Qeq_bool (slice_size_mm cfg) 0 = false ->
  forall seg idx, (save_blobs zoom num_str cfg f ct seg idx blobs).2 = Ok ().
Proof.
  intros H0. induction blobs as [|[[ctv segv] loc] blobs IH]; intros seg idx;
    [reflexivity|].
  cbn [save_blobs]. unfold process_blob, resample. rewrite H0.
  destruct (negb _ || negb _); rewrite bind_Ok;
    destruct (too_small _ _); cbn [mret result_ret];
    match goal with
    | |- context [save_blobs ?z ?n ?c ?f ?ct ?s ?i ?b] =>
        specialize (IH s i); destruct (save_blobs z n c f ct s i b); exact IH
    end.
Qed.

(** X12: the loop itself stops for two reasons only: when every pair of the
    listing has arrays of equal shape and [slice_size_mm] is not 0, the run
    ends without an exception. *)
Theorem matching_shapes_complete_the_run (listing : list source_pair) :
  Qeq_bool (slice_size_mm cfg) 0 = false ->
  (forall f, f ∈ listing -> shape (seg_image f) = shape (ct_image f)) ->
  (create_dataset connected_components zoom num_str cfg listing).2 = Ok ().
Proof.
  intros H0. induction listing as [|f listing IH]; intros Hall; [reflexivity|].
  cbn [create_dataset].
  destruct (process_pair_matching f (Hall f ltac:(left))) as (blobs & _ & ->).
  pose proof (save_blobs_completes f (np_clip (ct_image f) IMG_MIN_VAL IMG_MAX_VAL)
                blobs H0 (seg_image f) 0) as Hok.
  destruct (save_blobs _ _ _ _ _ _ _ _) as [log r]. cbn [snd] in Hok. subst r.
  specialize (IH (fun g Hg => Hall g (proj2 (elem_of_cons _ _ _) (or_intror Hg)))).
  destruct (create_dataset _ _ _ _ _) as [log' r']. exact IH.
Qed.

End BuilderFacts.

Section OutputDirectories.

Variable connected_components : ndarray bool -> ndarray Z.
Variable zoom : ndarray Z -> Q * Q * Q -> Z -> ndarray Z.
Variable num_str : Q -> string.
Variable cfg : dataset_config.

Lemma processed_dir_last :
  exists a, processed_dir num_str cfg = a +:+ ")".
Proof.
  unfold processed_dir. rewrite <- !string_app_assoc. eexists. reflexivity.
Qed.

Lemma new_ct_dir_unfold : new_ct_dir num_str cfg = processed_dir num_str cfg +:+ "/ct".
Proof.
  unfold new_ct_dir. destruct processed_dir_last as [a ->].
  apply path_join_dir; reflexivity.
Qed.

Lemma new_seg_dir_unfold : new_seg_dir num_str cfg = processed_dir num_str cfg +:+ "/seg".
Proof.
  unfold new_seg_dir. destruct processed_dir_last as [a ->].
  apply path_join_dir; reflexivity.
Qed.

Lemma crop_path_unfold filename loc idx :
  starts_with "/" filename = false ->
  crop_path num_str cfg filename loc idx
  = new_ct_dir num_str cfg +:+ "/" +:+ crop_fname filename loc idx.
Proof.
  intros Hf. unfold crop_path. rewrite new_ct_dir_unfold.
  change (processed_dir num_str cfg +:+ "/ct")
    with (processed_dir num_str cfg +:+ "/c" +:+ "t").
  rewrite <- string_app_assoc. apply path_join_dir; [reflexivity|].
  unfold crop_fname. destruct (0 <? String.length loc)%nat;
    apply starts_with_root; auto.
Qed.

Hypothesis num_str_lacks_o : forall q, lacks "o" (num_str q) = true.

(** X10: both files of a crop are written into the [ct] directory: the label
    path is the CT path with the replacement made in the file name, and no
    save goes below the [seg] directory. *)
Theorem label_crops_land_in_ct_dir (f : source_pair) (s : saved) :
  starts_with "/" (ct_filename f) = false ->
  s ∈ (process_pair connected_components zoom num_str cfg f).1 ->
  (exists name,
     ct_path s = new_ct_dir num_str cfg +:+ "/" +:+ name
     /\ seg_path s = new_ct_dir num_str cfg +:+ "/"
                     +:+ str_replace "volume" "segmentation" name)
  /\ String.prefix (new_seg_dir num_str cfg +:+ "/") (ct_path s) = false
  /\ String.prefix (new_seg_dir num_str cfg +:+ "/") (seg_path s) = false.
Proof.
  intros Hf Hs. apply process_pair_log in Hs as (_ & blobs & _ & Hs).
  destruct (save_blobs_log zoom num_str cfg (fun _ => True) f _
              (fun _ _ _ _ _ _ _ => I) _ _ _ s I Hs)
    as (n & [[ctv segv] loc] & seg_n & seg' & _ & _ & Hp).
  apply process_blob_inv in Hp as (-> & ct_array & seg_array & Hr & Ho).
  destruct (too_small _ _); [discriminate|]. injection Ho as ->.
  cbn [seg_path ct_path]. rewrite crop_path_unfold by exact Hf.
  set (name := crop_fname (ct_filename f) loc (0 + Z.of_nat n)).
  assert (Hrep : str_replace "volume" "segmentation"
                   (new_ct_dir num_str cfg +:+ "/" +:+ name)
                 = new_ct_dir num_str cfg +:+ "/"
                   +:+ str_replace "volume" "segmentation" name).
  { apply (replace_sep "/"); [reflexivity|].
    apply new_ct_dir_without_volume. exact num_str_lacks_o. }
  rewrite Hrep. split; [exists name; split; reflexivity|].
  rewrite new_ct_dir_unfold, new_seg_dir_unfold, !string_app_assoc, !prefix_common.
  split; reflexivity.
Qed.

End OutputDirectories.

Lemma label_crops_witness :
  exists s,
    s ∈ (process_pair cc3d_connected_components nearest_zoom decimal_str
           twin_config twin_pair).1
    /\ (exists name,
          ct_path s = new_ct_dir decimal_str twin_config +:+ "/" +:+ name
          /\ seg_path s = new_ct_dir decimal_str twin_config +:+ "/"
                          +:+ str_replace "volume" "segmentation" name)
    /\ String.prefix (new_seg_dir decimal_str twin_config +:+ "/") (ct_path s) = false
    /\ String.prefix (new_seg_dir decimal_str twin_config +:+ "/") (seg_path s) = false.
Proof.
  assert (Hlen : length (process_pair cc3d_connected_components nearest_zoom
                            decimal_str twin_config twin_pair).1 = 2%nat)
    by (vm_compute; reflexivity).
  destruct (process_pair cc3d_connected_components nearest_zoom decimal_str
              twin_config twin_pair).1 as [|s l] eqn:E; [discriminate|].
  exists s. split; [left|].
  apply (label_crops_land_in_ct_dir cc3d_connected_components nearest_zoom
           decimal_str twin_config decimal_str_lacks_o twin_pair s).
  - reflexivity.
  - rewrite E. left.
Defined.

(** ** The builder on concrete files *)

Lemma reference_labelling_on_mask m q :
  in_bounds (shape m) q -> item (cc3d_connected_components m) q <> 0 -> item m q = true.
Proof.
  intros _ H. apply (proj2 (reference_labelling_is_component_labelling m) q) in H.
  apply H.
Qed.

Lemma nearest_zoom_copies a dims q :
  in_bounds (shape (nearest_zoom a dims 0)) q ->
  exists q', in_bounds (shape a) q' /\ item (nearest_zoom a dims 0) q = item a q'.
Proof.
  intros Hq. destruct (nearest_zoom_sound a dims q Hq) as [Hin Hv].
  exists (nearest_origin (shape a) dims q). split; assumption.
Qed.

Lemma unlabelled_file_witness :
  process_pair cc3d_connected_components nearest_zoom decimal_str twin_config
    unlabelled_pair = ([], Ok ()).
Proof.
  apply (unlabelled_file_saves_nothing cc3d_connected_components nearest_zoom
           decimal_str twin_config unlabelled_pair (CroppingParams 1 (1, 2, 2) (1 # 2) 3)
           reference_labelling_shape reference_labelling_on_mask).
  - reflexivity.
  - reflexivity.
  - intros q _. simpl. discriminate.
Defined.

Lemma aligned_copies_witness :
  exists s,
    s ∈ (process_pair cc3d_connected_components nearest_zoom decimal_str
           twin_config twin_pair).1
    /\ shape (seg_npy s) = shape (ct_npy s)
    /\ exists o, forall q, in_bounds (shape (ct_npy s)) q ->
         in_bounds (shape (ct_image twin_pair)) (shift o q)
         /\ item (ct_npy s) q
            = Z.min (Z.max (item (ct_image twin_pair) (shift o q)) IMG_MIN_VAL) IMG_MAX_VAL
         /\ item (seg_npy s) q = item (seg_image twin_pair) (shift o q).
Proof.
  assert (Hlen : length (process_pair cc3d_connected_components nearest_zoom
                            decimal_str twin_config twin_pair).1 = 2%nat)
    by (vm_compute; reflexivity).
  destruct (process_pair cc3d_connected_components nearest_zoom decimal_str
              twin_config twin_pair).1 as [|s l] eqn:E; [discriminate|].
  exists s. split; [left|].
  apply (crops_are_aligned_copies cc3d_connected_components nearest_zoom
           decimal_str twin_config twin_pair s).
  - reflexivity.
  - reflexivity.
  - reflexivity.
  - vm_compute. repeat split; discriminate.
  - rewrite E. left.
Defined.

Lemma binary_labels_witness :
  exists s,
    s ∈ (process_pair cc3d_connected_components nearest_zoom decimal_str
           liver_config liver_pair).1
    /\ forall q, in_bounds (shape (seg_npy s)) q ->
         item (seg_npy s) q = 0 \/ item (seg_npy s) q = 1.
Proof.
  assert (Hlen : length (process_pair cc3d_connected_components nearest_zoom
                            decimal_str liver_config liver_pair).1 = 2%nat)
    by (vm_compute; reflexivity).
  destruct (process_pair cc3d_connected_components nearest_zoom decimal_str
              liver_config liver_pair).1 as [|s l] eqn:E; [discriminate|].
  exists s. split; [left|].
  apply (remove_liver_saves_binary_labels cc3d_connected_components nearest_zoom
           decimal_str liver_config liver_pair s).
  - reflexivity.
  - vm_compute. repeat split; discriminate.
  - apply nearest_zoom_copies.
  - intros q _. simpl. destruct (_ || _); lia.
  - rewrite E. left.
Defined.

Lemma both_arrays_witness :
  exists s,
    s ∈ (process_pair cc3d_connected_components nearest_zoom decimal_str
           twin_config twin_pair).1
    /\ seg_path s <> ct_path s
    /\ forall fs, persist fs s !! ct_path s = Some (ct_npy s)
                  /\ persist fs s !! seg_path s = Some (seg_npy s).
Proof.
  assert (Hlen : length (process_pair cc3d_connected_components nearest_zoom
                            decimal_str twin_config twin_pair).1 = 2%nat)
    by (vm_compute; reflexivity).
  destruct (process_pair cc3d_connected_components nearest_zoom decimal_str
              twin_config twin_pair).1 as [|s l] eqn:E; [discriminate|].
  exists s. split; [left|].
  apply (volume_named_crops_keep_both_arrays cc3d_connected_components nearest_zoom
           decimal_str twin_config twin_pair s).
  - reflexivity.
  - rewrite E. left.
Defined.

Lemma zero_slice_size_witness :
  exists blobs,
    all_blobs_of cc3d_connected_components zero_slice_config
      (np_clip (ct_image twin_pair) IMG_MIN_VAL IMG_MAX_VAL) (seg_image twin_pair)
    = Ok blobs
    /\ process_pair cc3d_connected_components nearest_zoom decimal_str zero_slice_config
         twin_pair
       = ([], match blobs with [] => Ok () | _ => Raise ZeroDivisionError end).
Proof.
  apply (zero_slice_size_saves_nothing cc3d_connected_components nearest_zoom
           decimal_str zero_slice_config twin_pair); reflexivity.
Defined.

Lemma complete_run_witness :
  (create_dataset cc3d_connected_components nearest_zoom decimal_str twin_config
     [twin_pair; scan_pair]).2 = Ok ().
Proof.
  apply (matching_shapes_complete_the_run cc3d_connected_components nearest_zoom
           decimal_str twin_config [twin_pair; scan_pair]).
  - reflexivity.
  - intros f Hf. repeat (apply elem_of_cons in Hf as [->|Hf]; [reflexivity|]).
    inversion Hf.
Defined.

(** ** The full-torso builder *)

Lemma filter_seqZ_sorted (P : Z -> bool) m n :
  StronglySorted Z.lt (List.filter P (seqZ m n)).
Proof.
  remember (Z.to_nat n) as k eqn:Hk. revert m n Hk.
  induction k as [|k IH]; intros m n Hk.
  - rewrite seqZ_nil by lia. constructor.
  - rewrite seqZ_cons by lia. simpl.
    specialize (IH (Z.succ m) (Z.pred n) ltac:(lia)).
    destruct (P m); [|exact IH]. constructor; [exact IH|].
    apply Forall_forall. intros x Hx.
    rewrite list_elem_of_In, filter_In, <- list_elem_of_In, elem_of_seqZ in Hx. lia.
Qed.

Lemma sorted_last_greatest l d x :
  StronglySorted Z.lt l -> x ∈ l -> x <= List.last l d.
Proof.
  intros Hs. revert d x. induction Hs as [|a l Hs IH Ha]; intros d x Hx; [inversion Hx|].
  destruct l as [|b l].
  - apply list_elem_of_singleton in Hx as ->. simpl. lia.
  - change (List.last (a :: b :: l) d) with (List.last (b :: l) d).
    apply elem_of_cons in Hx as [->|Hx]; [|apply IH; exact Hx].
    specialize (IH d b ltac:(left)). apply Forall_cons in Ha as [Ha _]. lia.
Qed.

Lemma last_elem_of (l : list Z) a : List.last (a :: l) a ∈ a :: l.
Proof.
  revert a. induction l as [|b l IH]; intros a; [left|].
  change (List.last (a :: b :: l) a) with (List.last (b :: l) a). right.
  destruct l as [|c l]; [left|].
  change (List.last (b :: c :: l) a) with (List.last (c :: l) a).
  specialize (IH b). change (List.last (b :: c :: l) b) with (List.last (c :: l) b) in IH.
  replace (List.last (c :: l) a) with (List.last (c :: l) b); [exact IH|].
  clear. revert c. induction l as [|e l IH]; intros c; [reflexivity|].
  change (List.last (e :: l) b = List.last (e :: l) a). apply IH.
Qed.

(** The first and the last labelled slice bound every labelled slice. *)
Lemma first_and_last_spec (z : ndarray1 bool) a b :
  first_and_last (np_where_1d z) = Ok (a, b) ->
  (0 <= a <= b /\ b < len1 z)
  /\ item1 z a = true /\ item1 z b = true
  /\ forall i, 0 <= i < len1 z -> item1 z i = true -> a <= i <= b.
Proof.
  unfold np_where_1d.
  pose proof (filter_seqZ_sorted (item1 z) 0 (len1 z)) as Hs.
  assert (Hmem : forall x, x ∈ List.filter (item1 z) (seqZ 0 (len1 z))
                           <-> 0 <= x < len1 z /\ item1 z x = true).
  { intros x. rewrite list_elem_of_In, filter_In, <- list_elem_of_In, elem_of_seqZ.
    split; intros [? ?]; split; auto; lia. }
  destruct (List.filter (item1 z) (seqZ 0 (len1 z))) as [|x l] eqn:E; [discriminate|].
  unfold first_and_last. intros H.
  assert (a = x /\ b = List.last (x :: l) x) as [-> ->] by (injection H; auto).
  clear H.
  assert (Ha : x ∈ x :: l) by left.
  pose proof (last_elem_of l x) as Hb.
  pose proof (sorted_last_greatest (x :: l) x x Hs Ha) as Hab.
  apply Hmem in Ha as [Ha1 Ha2]. apply Hmem in Hb as [Hb1 Hb2].
  split; [lia|]. split; [exact Ha2|]. split; [exact Hb2|].
  intros i Hi Hz. assert (Hin : i ∈ x :: l) by (apply Hmem; auto).
  split; [|apply sorted_last_greatest; assumption].
  apply elem_of_cons in Hin as [->|Hin]; [lia|].
  inversion Hs as [|? ? _ Hall]; subst. rewrite Forall_forall in Hall.
  apply Hall in Hin. lia.
Qed.

Lemma np_any_12_true (a : ndarray Z) i :
  item1 (np_any_12 a) i = true
  <-> exists j k, (0 <= j < (shape a).1.2 /\ 0 <= k < (shape a).2)
                  /\ item a (i, j, k) <> 0.
Proof.
  unfold np_any_12. destruct (shape a) as [[d h] w]. cbn [item1 fst snd].
  rewrite existsb_exists. split.
  - intros (j & Hj & H). apply existsb_exists in H as (k & Hk & H).
    apply list_elem_of_In, elem_of_seqZ in Hj, Hk.
    apply negb_true_iff, Z.eqb_neq in H. exists j, k. split; [lia|exact H].
  - intros (j & k & (Hj & Hk) & H). exists j. split.
    + apply list_elem_of_In, elem_of_seqZ. lia.
    + apply existsb_exists. exists k. split.
      * apply list_elem_of_In, elem_of_seqZ. lia.
      * apply negb_true_iff, Z.eqb_neq. exact H.
Qed.

Lemma np_any_12_len (a : ndarray Z) : len1 (np_any_12 a) = (shape a).1.1.
Proof. unfold np_any_12. destruct (shape a) as [[d h] w]. reflexivity. Qed.

Section TorsoFacts.

Variable zoom : ndarray Z -> Q * Q * Q -> Z -> ndarray Z.
Variable num_str : Q -> string.
Variables (spatial_subsample slice_size_mm : Q) (expand_slice min_depth : Z).

(** X13: a scan whose label volume holds no label stops the run with an
    [IndexError]: nothing is written for it, nor for the files after it. *)
Theorem unlabelled_scan_raises_index_error (f : torso_pair) (rest : list torso_pair) :
  (forall a dims q, in_bounds (shape (zoom a dims 0)) q ->
     exists q', in_bounds (shape a) q' /\ item (zoom a dims 0) q = item a q') ->
  shape (GetArrayFromImage (torso_seg f)) = shape (GetArrayFromImage (torso_ct f)) ->
  Qeq_bool slice_size_mm 0 = false ->
  (forall q, in_bounds (shape (GetArrayFromImage (torso_seg f))) q ->
     item (GetArrayFromImage (torso_seg f)) q = 0) ->
  Normal.create_normal_dataset zoom num_str spatial_subsample slice_size_mm
    expand_slice min_depth (f :: rest) = ([], Raise IndexError).
Proof.
  intros Hzoom Hs H0 Hzero.
  assert (Hp : Normal.process_pair zoom num_str spatial_subsample slice_size_mm
                 expand_slice min_depth f = ([], Raise IndexError)).
  { unfold Normal.process_pair. rewrite bool_decide_eq_true_2 by exact Hs. rewrite H0.
    set (seg := Normal.resampled_seg zoom spatial_subsample slice_size_mm f).
    assert (Hnil : np_where_1d (np_any_12 seg) = []).
    { unfold np_where_1d. apply filter_nil_all. intros i Hi.
      destruct (item1 (np_any_12 seg) i) eqn:E; [|reflexivity].
      apply np_any_12_true in E as (j & k & (Hj & Hk) & E).
      apply elem_of_seqZ in Hi. rewrite np_any_12_len in Hi.
      destruct (Hzoom (GetArrayFromImage (torso_seg f))
                      (Normal.new_dims spatial_subsample slice_size_mm f) (i, j, k))
        as (q' & Hq' & Hv).
      - fold (Normal.resampled_seg zoom spatial_subsample slice_size_mm f). fold seg.
        destruct (shape seg) as [[d h] w]. simpl in *. lia.
      - exfalso. apply E. unfold seg, Normal.resampled_seg. rewrite Hv.
        apply Hzero. exact Hq'. }
    rewrite Hnil. reflexivity. }
  cbn [Normal.create_normal_dataset]. rewrite Hp. reflexivity.
Qed.

(** X14: what is written for a scan, when the slices are not narrowed
    ([expand_slice] not negative): the two arrays have the same shape and
    [min_depth] slices or more, they are the same run of whole slices of the
    two resampled arrays, and that run holds every labelled voxel. *)
Theorem written_volumes_keep_labelled_slices (f : torso_pair)
    (new_ct new_seg : sitk_image) (p1 p2 : string) :
  0 <= expand_slice ->
  (forall x y dims o o', shape x = shape y ->
     shape (zoom x dims o) = shape (zoom y dims o')) ->
  Normal.process_pair zoom num_str spatial_subsample slice_size_mm expand_slice
    min_depth f = ([(p1, new_ct); (p2, new_seg)], Ok ()) ->
  let ct := Normal.resampled_ct zoom spatial_subsample slice_size_mm f in
  let seg := Normal.resampled_seg zoom spatial_subsample slice_size_mm f in
  shape (GetArrayFromImage new_ct) = shape (GetArrayFromImage new_seg)
  /\ min_depth <= (shape (GetArrayFromImage new_seg)).1.1
  /\ exists start_slice, 0 <= start_slice
       /\ (forall q, in_bounds (shape (GetArrayFromImage new_seg)) q ->
             in_bounds (shape seg) (shift (start_slice, 0, 0) q)
             /\ item (GetArrayFromImage new_seg) q = item seg (shift (start_slice, 0, 0) q)
             /\ item (GetArrayFromImage new_ct) q = item ct (shift (start_slice, 0, 0) q))
       /\ forall i j k, in_bounds (shape seg) (i, j, k) -> item seg (i, j, k) <> 0 ->
            in_bounds (shape (GetArrayFromImage new_seg)) (i - start_slice, j, k).
Proof.
  intros He Hz Hp ct seg. unfold Normal.process_pair in Hp.
  case_bool_decide as Hs; [|discriminate].
  destruct (Qeq_bool slice_size_mm 0); [discriminate|].
  fold ct seg in Hp.
  destruct (first_and_last (np_where_1d (np_any_12 seg))) as [[a b]|e] eqn:Hfl;
    [|discriminate].
  apply first_and_last_spec in Hfl as (Hab & Hza & _ & Hall).
  rewrite np_any_12_len in Hab.
  apply np_any_12_true in Hza as (j0 & k0 & (Hj0 & Hk0) & _).
  assert (Hshape : shape ct = shape seg).
  { unfold ct, seg, Normal.resampled_ct, Normal.resampled_seg. apply Hz.
    symmetry. exact Hs. }
  rewrite Hshape in Hp.
  destruct (shape seg) as [[d h] w] eqn:Hseg. cbn [fst snd] in *.
  set (start_slice := Z.max 0 (a - expand_slice)) in *.
  set (end_slice := Z.min (d - 1) (b + expand_slice)) in *.
  destruct (Z.ltb_spec (end_slice - start_slice + 1) min_depth) as [|Hdepth];
    [discriminate|].
  destruct (Qeq_bool spatial_subsample 0); [discriminate|].
  destruct (GetSpacing (torso_ct f)) as [[sx sy] sz].
  unfold SetSpacing, GetImageFromArray in Hp.
  destruct (_ || _); [discriminate|]. destruct (_ || _); [discriminate|].
  cbn [GetArrayFromImage GetDirection GetOrigin mret result_ret] in Hp.
  injection Hp as _ <- _ <-. cbn [GetArrayFromImage].
  assert (H0 : slice_start (Slice start_slice (end_slice + 1)) d = start_slice
               /\ slice_len (Slice start_slice (end_slice + 1)) d
                  = end_slice + 1 - start_slice).
  { unfold slice_start, slice_len. cbn [start stop].
    rewrite !adjust_nonneg by lia. lia. }
  assert (Hfull : forall n, 0 <= n ->
            slice_start (full_slice n) n = 0 /\ slice_len (full_slice n) n = n).
  { intros n Hn. unfold slice_start, slice_len, full_slice. cbn [start stop].
    rewrite !adjust_nonneg by lia. lia. }
  destruct H0 as [Hst Hlen].
  destruct (Hfull h ltac:(lia)) as [Hh0 Hh]. destruct (Hfull w ltac:(lia)) as [Hw0 Hw].
  unfold getitem. rewrite Hshape, Hseg. unfold basic_index.
  rewrite Hst, Hlen, Hh0, Hh, Hw0, Hw. cbn [deref shape item extent offset fst snd].
  split; [reflexivity|]. split; [lia|].
  exists start_slice. split; [lia|]. split.
  - intros [[i j] k] Hq. simpl in Hq. split; [simpl; lia|]. split; reflexivity.
  - intros i j k Hq Hv. simpl in Hq.
    assert (a <= i <= b).
    { apply Hall; [rewrite np_any_12_len, Hseg; simpl; lia|].
      apply np_any_12_true. exists j, k. rewrite Hseg. split; [simpl; lia|exact Hv]. }
    simpl. lia.
Qed.

End TorsoFacts.

Lemma unlabelled_scan_witness :
  Normal.create_normal_dataset nearest_zoom decimal_str 1 1 1 2 [empty_scan; torso_scan]
  = ([], Raise IndexError).
Proof.
  apply (unlabelled_scan_raises_index_error nearest_zoom decimal_str 1 1 1 2
           empty_scan [torso_scan]).
  - apply nearest_zoom_copies.
  - reflexivity.
  - reflexivity.
  - intros q _. reflexivity.
Defined.

Lemma written_volumes_witness :
  exists new_ct new_seg p1 p2,
    Normal.process_pair nearest_zoom decimal_str 1 1 1 2 torso_scan
    = ([(p1, new_ct); (p2, new_seg)], Ok ())
    /\ shape (GetArrayFromImage new_ct) = shape (GetArrayFromImage new_seg)
    /\ 2 <= (shape (GetArrayFromImage new_seg)).1.1
    /\ exists start_slice, 0 <= start_slice
         /\ (forall q, in_bounds (shape (GetArrayFromImage new_seg)) q ->
               in_bounds (shape (Normal.resampled_seg nearest_zoom 1 1 torso_scan))
                         (shift (start_slice, 0, 0) q)
               /\ item (GetArrayFromImage new_seg) q
                  = item (Normal.resampled_seg nearest_zoom 1 1 torso_scan)
                         (shift (start_slice, 0, 0) q)
               /\ item (GetArrayFromImage new_ct) q
                  = item (Normal.resampled_ct nearest_zoom 1 1 torso_scan)
                         (shift (start_slice, 0, 0) q))
         /\ forall i j k,
              in_bounds (shape (Normal.resampled_seg nearest_zoom 1 1 torso_scan)) (i, j, k) ->
              item (Normal.resampled_seg nearest_zoom 1 1 torso_scan) (i, j, k) <> 0 ->
              in_bounds (shape (GetArrayFromImage new_seg)) (i - start_slice, j, k).
Proof.
  eexists _, _, _, _. split; [reflexivity|].
  eapply (written_volumes_keep_labelled_slices nearest_zoom decimal_str 1 1 1 2
            torso_scan).
  - lia.
  - apply nearest_zoom_shape.
  - reflexivity.
Defined.

Lemma prefix_skip old s :
  String.prefix old s = true -> old +:+ skip_chars (String.length old) s = s.
Proof.
  revert s. induction old as [|o old IH]; intros s; [destruct s; reflexivity|].
  destruct s as [|x s]; [discriminate|]. cbn [String.prefix].
  destruct (ascii_dec o x) as [->|]; [|discriminate]. intros H.
  cbn [String.length skip_chars].
  change (String x old +:+ skip_chars (String.length old) s)
    with (String x (old +:+ skip_chars (String.length old) s)).
  rewrite (IH s H). reflexivity.
Qed.

Lemma replace_go_same old k s :
  old <> EmptyString -> replace_go old old k s = skip_chars k s.
Proof.
  intros Hold. revert k. induction s as [|x s IH]; intros k; [destruct k; reflexivity|].
  destruct k as [|k]; cbn [replace_go skip_chars]; [|apply IH].
  destruct (String.prefix old (String x s)) eqn:Hp.
  - rewrite IH. apply prefix_skip in Hp.
    destruct old as [|o old]; [congruence|].
    cbn [String.length skip_chars] in Hp.
    replace (String.length (String o old) - 1)%nat with (String.length old)
      by (cbn [String.length]; lia).
    exact Hp.
  - rewrite IH. destruct s; reflexivity.
Qed.

(** Replacing a string by itself changes nothing. *)
Lemma replace_same old s : old <> EmptyString -> str_replace old old s = s.
Proof.
  intros Hold. unfold str_replace. rewrite replace_go_same by exact Hold.
  destruct s; reflexivity.
Qed.

Lemma starts_with_replace c old new s :
  new <> EmptyString -> starts_with c new = false -> starts_with c s = false ->
  starts_with c (str_replace old new s) = false.
Proof.
  intros Hne Hnew Hs. unfold str_replace. destruct s as [|x s]; [reflexivity|].
  cbn [replace_go]. destruct (String.prefix old (String x s)); [|exact Hs].
  destruct new as [|n0 new]; [congruence|exact Hnew].
Qed.

Lemma string_app_inv_head a b c : a +:+ b = a +:+ c -> b = c.
Proof.
  induction a as [|x a IH]; [auto|]. intros H. apply IH.
  change (String x (a +:+ b) = String x (a +:+ c)) in H. congruence.
Qed.

Section TorsoPaths.

Variable zoom : ndarray Z -> Q * Q * Q -> Z -> ndarray Z.
Variable num_str : Q -> string.
Variables (spatial_subsample slice_size_mm : Q) (expand_slice min_depth : Z).

Lemma torso_dir_last :
  exists a, Normal.processed_dir num_str spatial_subsample slice_size_mm = a +:+ ")".
Proof.
  unfold Normal.processed_dir. rewrite <- !string_app_assoc. eexists. reflexivity.
Qed.

(** X15: the CT of a scan is written into the [ct] directory under the name of
    the file and its labels into the [seg] directory under the name with
    ["volume"] replaced, the second replacement being void: the two writes
    never share a path. *)
Theorem torso_writes_go_to_both_dirs (f : torso_pair)
    (new_ct new_seg : sitk_image) (p1 p2 : string) :
  starts_with "/" (torso_filename f) = false ->
  Normal.process_pair zoom num_str spatial_subsample slice_size_mm expand_slice
    min_depth f = ([(p1, new_ct); (p2, new_seg)], Ok ()) ->
  p1 = Normal.processed_dir num_str spatial_subsample slice_size_mm
       +:+ "/ct/" +:+ torso_filename f
  /\ p2 = Normal.processed_dir num_str spatial_subsample slice_size_mm
          +:+ "/seg/" +:+ str_replace "volume" "segmentation" (torso_filename f)
  /\ p1 <> p2.
Proof.
  intros Hf Hp. unfold Normal.process_pair in Hp.
  case_bool_decide; [|discriminate].
  destruct (Qeq_bool slice_size_mm 0); [discriminate|].
  destruct (first_and_last _) as [[first last]|e]; [|discriminate].
  destruct (_ <? min_depth); [discriminate|].
  destruct (Qeq_bool spatial_subsample 0); [discriminate|].
  destruct (GetSpacing (torso_ct f)) as [[sx sy] sz].
  destruct (SetSpacing _ _) as [ct'|]; [|discriminate].
  destruct (SetSpacing _ _) as [seg'|]; [|discriminate].
  injection Hp as <- _ <- _.
  rewrite replace_same by discriminate.
  unfold Normal.new_ct_path, Normal.new_seg_dir.
  destruct torso_dir_last as [a ->].
  set (name := str_replace "volume" "segmentation" (torso_filename f)).
  assert (Hname : starts_with "/" name = false)
    by (apply starts_with_replace; [discriminate|reflexivity|exact Hf]).
  rewrite !(path_join_dir a ")") by reflexivity.
  change ((a +:+ ")") +:+ "/" +:+ "ct") with ((a +:+ ")") +:+ "/c" +:+ "t").
  change ((a +:+ ")") +:+ "/" +:+ "seg") with ((a +:+ ")") +:+ "/se" +:+ "g").
  rewrite <- !(string_app_assoc (a +:+ ")")).
  rewrite !path_join_dir by (reflexivity || assumption).
  rewrite !string_app_assoc.
  split; [reflexivity|]. split; [reflexivity|].
  intros E. apply string_app_inv_head in E. discriminate.
Qed.

End TorsoPaths.

Lemma torso_writes_witness :
  exists new_ct new_seg p1 p2,
    Normal.process_pair nearest_zoom decimal_str 1 1 1 2 torso_scan
    = ([(p1, new_ct); (p2, new_seg)], Ok ())
    /\ p1 = Normal.processed_dir decimal_str 1 1 +:+ "/ct/" +:+ torso_filename torso_scan
    /\ p2 = Normal.processed_dir decimal_str 1 1 +:+ "/seg/"
            +:+ str_replace "volume" "segmentation" (torso_filename torso_scan)
    /\ p1 <> p2.
Proof.
  eexists _, _, _, _. split; [reflexivity|].
  eapply (torso_writes_go_to_both_dirs nearest_zoom decimal_str 1 1 1 2 torso_scan).
  - reflexivity.
  - reflexivity.
Defined.

(** ** Upsampling in the full-torso builder *)

Lemma py_int_inverse (q : Q) : (1 < q)%Q -> py_int (1 / q) = 0.
Proof.
  destruct q as [n d]. unfold Qlt. cbn [Qnum Qden]. intros H.
  destruct n as [|n|n]; try lia.
  unfold py_int, Qdiv, Qinv, Qmult, Qle_bool, Qfloor. cbn [Qnum Qden].
  rewrite Z.mul_1_l. cbn [Z.leb Z.mul Z.compare].
  apply Z.div_small. lia.
Qed.

Section Upsampling.

Variable zoom : ndarray Z -> Q * Q * Q -> Z -> ndarray Z.
Variable num_str : Q -> string.
Variables (spatial_subsample slice_size_mm : Q) (expand_slice min_depth : Z).

Lemma upsampled_pair_writes_nothing (f : torso_pair) :
  (1 < spatial_subsample)%Q ->
  (Normal.process_pair zoom num_str spatial_subsample slice_size_mm expand_slice
     min_depth f).1 = [].
Proof.
  intros H. unfold Normal.process_pair.
  case_bool_decide; [|reflexivity].
  destruct (Qeq_bool slice_size_mm 0); [reflexivity|].
  destruct (first_and_last _) as [[first last]|e]; [|reflexivity].
  destruct (_ <? min_depth); [reflexivity|].
  destruct (Qeq_bool spatial_subsample 0); [reflexivity|].
  destruct (GetSpacing (torso_ct f)) as [[sx sy] sz].
  rewrite py_int_inverse by exact H.
  unfold SetSpacing at 1.
  assert (Qeq_bool (sx * inject_Z 0) 0 = true) as ->; [|reflexivity].
  apply Qeq_bool_iff. apply Qmult_0_r.
Qed.

(** X16: with [spatial_subsample] above 1 nothing is ever written:
    [int(1 / spatial_subsample)] is 0, and the spacing of zero it gives is
    refused by [SetSpacing] before the first [WriteImage]. *)
Theorem upsampling_writes_nothing (listing : list torso_pair) :
  (1 < spatial_subsample)%Q ->
  (Normal.create_normal_dataset zoom num_str spatial_subsample slice_size_mm
     expand_slice min_depth listing).1 = [].
Proof.
  intros H. induction listing as [|f listing IH]; [reflexivity|].
  cbn [Normal.create_normal_dataset].
  pose proof (upsampled_pair_writes_nothing f H) as Hf.
  destruct (Normal.process_pair _ _ _ _ _ _ f) as [log r]. cbn [fst] in Hf. subst log.
  destruct r as [[]|e]; [|reflexivity].
  destruct (Normal.create_normal_dataset _ _ _ _ _ _ listing) as [log' r'].
  exact IH.
Qed.

End Upsampling.

Lemma upsampling_witness :
  (1 < 2)%Q
  /\ (Normal.create_normal_dataset nearest_zoom decimal_str 2 1 1 2 [torso_scan]).1 = []
  /\ (Normal.create_normal_dataset nearest_zoom decimal_str 2 1 1 2 [torso_scan]).2
     = Raise RuntimeError.
Proof.
  assert (H : (1 < 2)%Q) by reflexivity.
  split; [exact H|]. split.
  - exact (upsampling_writes_nothing nearest_zoom decimal_str 2 1 1 2 [torso_scan] H).
  - vm_compute. reflexivity.
Defined.
